(** * Session lifecycle of the voice client (client/src/app.ts)

    A shallow embedding of [WebsocketClientApp]: the connection URL
    builder inside [connect], the connect / disconnect / toggle
    operations, the microphone toggle and the track listeners.

    Modelling conventions.
    - A JavaScript string is a [string] (its UTF-8 bytes).
    - A DOM element looked up with [getElementById] is an [option]:
      [None] is the [null] the source guards against everywhere.
    - [RTVIClient] and [AudioContext] objects live in a store (a list
      indexed by allocation order); the fields [rtviClient] and
      [audioContext] of the application hold references into it, so an
      object that is overwritten in the field stays alive in the store.
    - The transport library is outside the repository.  What it does
      during an awaited call is supplied by an [Env]: the callbacks it
      fires while the caller is suspended and whether the promise
      resolves or rejects.  Constructors ([new AudioContext], [new
      WebSocketTransport], [new RTVIClient]) are taken to succeed.  The
      local capture track is the one [initDevices] acquires; the
      transport never writes its [enabled] flag on its own.
    - An async function is run to completion: user clicks are not
      interleaved inside one [await].
    - Every call of [updateConnectionStatus], [console.log] and of the
      transport is recorded, in order, in the [trace] of the state. *)

From Stdlib Require Import Ascii String.
From stdpp Require Import base list strings.

Local Open Scope string_scope.
Local Open Scope list_scope.

(** ** Values *)

Inductive LogLevel := info | warning | error.

Inductive ConnStatus := connected | connecting | disconnected.

Inductive RTVIEvent := TrackStartedEv | TrackStoppedEv.

Inductive Method := MInitDevices | MConnect | MDisconnect.

Inductive AudioContextState := suspended | running | closed.

Record JsError := { errName : string; message : string }.

Record Track := { trackId : nat; kind : string; enabled : bool }.

Record Participant := { local : bool }.

Record Message := { msgType : string; msgParticipant : string; msgText : string }.

Record Location := { protocol : string; hostname : string; port : string }.

Record RTVIClientOptions := {
  baseUrl : string;
  connectEndpoint : string;
  enableMic : bool;
  enableCam : bool
}.

Record RTVIClient := {
  options : RTVIClientOptions;
  listeners : list RTVIEvent;
  localAudio : option Track;
  botAudio : option Track
}.

Record MicButton := { micDisabled : bool; micClasses : list string }.

Record Page := {
  connectBtnChat : option string;       (* innerHTML of #connect-btn-chat *)
  micButton : option MicButton;         (* #mic-button *)
  statusDot : option (list string);     (* classList of #status-dot *)
  connectionStatus : option string;     (* textContent of #connection-status *)
  statusText : option string;           (* textContent of #status-text *)
  apiKeyInput : option string;          (* value of #api-key-input *)
  botAudioEl : option (option (list Track)) (* srcObject of #bot-audio *)
}.

Inductive Effect :=
| ConsoleLog (line : string)
| StatusUpdate (s : ConnStatus)
| NewAudioContext (a : nat)
| ResumeAudioContext (a : nat)
| CloseAudioContext (a : nat)
| NewWebSocketTransport
| NewRTVIClient (c : nat) (o : RTVIClientOptions)
| On (c : nat) (ev : RTVIEvent)
| Call (c : nat) (m : Method)
| Settled (c : nat) (m : Method) (ok : bool)
| Play (t : Track).

Record State := {
  rtviClient : option nat;
  audioContext : option nat;
  activeTab : string;
  page : Page;
  systemPrompt : option string;         (* window.systemPrompt: a string or undefined *)
  location : Location;                  (* window.location *)
  VITE_WSS_URL : option string;         (* import.meta.env.VITE_WSS_URL *)
  clients : list RTVIClient;
  contexts : list AudioContextState;
  trace : list Effect
}.

(** What the transport reports while a caller is suspended. *)
Inductive Callback :=
| OnConnected
| OnDisconnected
| OnBotReady (dataJson : string) (bot : option Track)
| OnGenericMessage (m : Message)
| OnMessageError (e : string)
| OnError (e : string)
| TrackStarted (t : Track) (p : option Participant)
| TrackStopped (t : Track) (p : option Participant).

Inductive EnvEvent :=
| FromClient (c : nat) (cb : Callback)
| AudioPlayRejected (e : string).

Record Settlement := { fired : list EnvEvent; rejection : option JsError }.

Record Env := {
  mic : option Track;
  initDevicesResult : Settlement;
  connectResult : Settlement;
  disconnectResult : Settlement
}.

(** ** Decidable equalities used by the code's comparisons *)

#[global] Instance RTVIEvent_eq_dec : EqDecision RTVIEvent.
Proof. solve_decision. Defined.

#[global] Instance Method_eq_dec : EqDecision Method.
Proof. solve_decision. Defined.

#[global] Instance ConnStatus_eq_dec : EqDecision ConnStatus.
Proof. solve_decision. Defined.

(** ** Field updates *)

Definition set_rtviClient (v : option nat) (s : State) : State :=
  {| rtviClient := v; audioContext := audioContext s; activeTab := activeTab s;
     page := page s; systemPrompt := systemPrompt s; location := location s;
     VITE_WSS_URL := VITE_WSS_URL s; clients := clients s;
     contexts := contexts s; trace := trace s |}.

Definition set_audioContext (v : option nat) (s : State) : State :=
  {| rtviClient := rtviClient s; audioContext := v; activeTab := activeTab s;
     page := page s; systemPrompt := systemPrompt s; location := location s;
     VITE_WSS_URL := VITE_WSS_URL s; clients := clients s;
     contexts := contexts s; trace := trace s |}.

Definition set_activeTab (v : string) (s : State) : State :=
  {| rtviClient := rtviClient s; audioContext := audioContext s; activeTab := v;
     page := page s; systemPrompt := systemPrompt s; location := location s;
     VITE_WSS_URL := VITE_WSS_URL s; clients := clients s;
     contexts := contexts s; trace := trace s |}.

Definition set_page (v : Page) (s : State) : State :=
  {| rtviClient := rtviClient s; audioContext := audioContext s;
     activeTab := activeTab s; page := v; systemPrompt := systemPrompt s;
     location := location s; VITE_WSS_URL := VITE_WSS_URL s;
     clients := clients s; contexts := contexts s; trace := trace s |}.

Definition set_systemPrompt (v : option string) (s : State) : State :=
  {| rtviClient := rtviClient s; audioContext := audioContext s;
     activeTab := activeTab s; page := page s; systemPrompt := v;
     location := location s; VITE_WSS_URL := VITE_WSS_URL s;
     clients := clients s; contexts := contexts s; trace := trace s |}.

Definition set_clients (v : list RTVIClient) (s : State) : State :=
  {| rtviClient := rtviClient s; audioContext := audioContext s;
     activeTab := activeTab s; page := page s; systemPrompt := systemPrompt s;
     location := location s; VITE_WSS_URL := VITE_WSS_URL s; clients := v;
     contexts := contexts s; trace := trace s |}.

Definition set_contexts (v : list AudioContextState) (s : State) : State :=
  {| rtviClient := rtviClient s; audioContext := audioContext s;
     activeTab := activeTab s; page := page s; systemPrompt := systemPrompt s;
     location := location s; VITE_WSS_URL := VITE_WSS_URL s;
     clients := clients s; contexts := v; trace := trace s |}.

Definition emit (e : Effect) (s : State) : State :=
  {| rtviClient := rtviClient s; audioContext := audioContext s;
     activeTab := activeTab s; page := page s; systemPrompt := systemPrompt s;
     location := location s; VITE_WSS_URL := VITE_WSS_URL s;
     clients := clients s; contexts := contexts s; trace := trace s ++ [e] |}.

Definition set_connectBtnChat (v : option string) (p : Page) : Page :=
  {| connectBtnChat := v; micButton := micButton p; statusDot := statusDot p;
     connectionStatus := connectionStatus p; statusText := statusText p;
     apiKeyInput := apiKeyInput p; botAudioEl := botAudioEl p |}.

Definition set_micButton (v : option MicButton) (p : Page) : Page :=
  {| connectBtnChat := connectBtnChat p; micButton := v; statusDot := statusDot p;
     connectionStatus := connectionStatus p; statusText := statusText p;
     apiKeyInput := apiKeyInput p; botAudioEl := botAudioEl p |}.

Definition set_statusDot (v : option (list string)) (p : Page) : Page :=
  {| connectBtnChat := connectBtnChat p; micButton := micButton p; statusDot := v;
     connectionStatus := connectionStatus p; statusText := statusText p;
     apiKeyInput := apiKeyInput p; botAudioEl := botAudioEl p |}.

Definition set_connectionStatus (v : option string) (p : Page) : Page :=
  {| connectBtnChat := connectBtnChat p; micButton := micButton p;
     statusDot := statusDot p; connectionStatus := v; statusText := statusText p;
     apiKeyInput := apiKeyInput p; botAudioEl := botAudioEl p |}.

Definition set_statusText (v : option string) (p : Page) : Page :=
  {| connectBtnChat := connectBtnChat p; micButton := micButton p;
     statusDot := statusDot p; connectionStatus := connectionStatus p;
     statusText := v; apiKeyInput := apiKeyInput p; botAudioEl := botAudioEl p |}.

Definition set_botAudioEl (v : option (option (list Track))) (p : Page) : Page :=
  {| connectBtnChat := connectBtnChat p; micButton := micButton p;
     statusDot := statusDot p; connectionStatus := connectionStatus p;
     statusText := statusText p; apiKeyInput := apiKeyInput p; botAudioEl := v |}.

Definition set_enabled (b : bool) (t : Track) : Track :=
  {| trackId := trackId t; kind := kind t; enabled := b |}.

Definition set_localAudio (v : option Track) (c : RTVIClient) : RTVIClient :=
  {| options := options c; listeners := listeners c; localAudio := v;
     botAudio := botAudio c |}.

Definition set_botAudio (v : option Track) (c : RTVIClient) : RTVIClient :=
  {| options := options c; listeners := listeners c; localAudio := localAudio c;
     botAudio := v |}.

Definition add_listener (ev : RTVIEvent) (c : RTVIClient) : RTVIClient :=
  {| options := options c; listeners := listeners c ++ [ev];
     localAudio := localAudio c; botAudio := botAudio c |}.

(** In-place update of the client object a reference points to. *)
Definition update_client (c : nat) (f : RTVIClient -> RTVIClient) (s : State) : State :=
  match clients s !! c with
  | Some cl => set_clients (<[c := f cl]> (clients s)) s
  | None => s
  end.

(** ** JavaScript helpers *)

(** [DOMTokenList.add] and [DOMTokenList.remove]. *)
Definition classAdd (c : string) (l : list string) : list string :=
  if bool_decide (c ∈ l) then l else l ++ [c].

Definition classRemove (c : string) (l : list string) : list string :=
  filter (fun x => x <> c) l.

(** Truthiness of [string | undefined]. *)
Definition truthy (v : option string) : bool :=
  match v with
  | Some s => negb (String.eqb s EmptyString)
  | None => false
  end.

(** [`${error}`] for an [Error] object ([Error.prototype.toString]). *)
Definition errorToString (e : JsError) : string :=
  if String.eqb (errName e) EmptyString then message e
  else if String.eqb (message e) EmptyString then errName e
  else errName e +:+ ": " +:+ message e.

Definition nullDeref : JsError :=
  {| errName := "TypeError"; message := "Cannot read properties of null" |}.

Definition dquote : string := String "034"%char EmptyString.

Definition hexDigit (n : nat) : ascii :=
  nth n (list_ascii_of_string "0123456789ABCDEF") "0"%char.

Definition inRange (lo hi n : nat) : bool := (lo <=? n)%nat && (n <=? hi)%nat.

(** The characters [encodeURIComponent] leaves alone: A-Z a-z 0-9 and
    the marks - _ . ! ~ * ' ( ). *)
Definition uriUnescaped (c : ascii) : bool :=
  let n := nat_of_ascii c in
  inRange 65 90 n || inRange 97 122 n || inRange 48 57 n
  || existsb (Ascii.eqb c) (list_ascii_of_string "-_.!~*'()").

Fixpoint encodeURIComponent (s : string) : string :=
  match s with
  | EmptyString => EmptyString
  | String c rest =>
      if uriUnescaped c then String c (encodeURIComponent rest)
      else
        let n := nat_of_ascii c in
        String "%" (String (hexDigit (n / 16)) (String (hexDigit (n mod 16))
          (encodeURIComponent rest)))
  end.

Fixpoint isPrefixOf (p s : string) : bool :=
  match p, s with
  | EmptyString, _ => true
  | String a p', String b s' => Ascii.eqb a b && isPrefixOf p' s'
  | String _ _, EmptyString => false
  end.

(** [hay.includes(needle)]. *)
Fixpoint includes (needle hay : string) : bool :=
  isPrefixOf needle hay ||
  match hay with
  | EmptyString => false
  | String _ rest => includes needle rest
  end.

(** ** Helpers of the class *)

Definition getApiBaseUrl (l : Location) : string :=
  protocol l +:+ "//" +:+ hostname l +:+
  (if negb (String.eqb (port l) EmptyString) then ":" +:+ port l else EmptyString).

Definition levelUpper (l : LogLevel) : string :=
  match l with
  | info => "INFO"
  | warning => "WARNING"
  | error => "ERROR"
  end.

Definition log (msg : string) (level : LogLevel) (s : State) : State :=
  emit (ConsoleLog ("[" +:+ levelUpper level +:+ "] " +:+ msg)) s.

Definition statusLabel (st : ConnStatus) : string :=
  match st with
  | connected => "Connected"
  | connecting => "Connecting..."
  | disconnected => "Not Connected"
  end.

Definition updateConnectionStatus (st : ConnStatus) (s : State) : State :=
  let s := emit (StatusUpdate st) s in
  match statusDot (page s) with
  | Some cls =>
      let cls' := match st with
                  | connected => classAdd "connected" cls
                  | _ => classRemove "connected" cls
                  end in
      let p := set_statusDot (Some cls') (page s) in
      let p := match connectionStatus p with
               | Some _ => set_connectionStatus (Some (statusLabel st)) p
               | None => p
               end in
      set_page p s
  | None => s
  end.

Definition updateStatusText (text : string) (s : State) : State :=
  match statusText (page s) with
  | Some _ => set_page (set_statusText (Some text) (page s)) s
  | None => s
  end.

Definition setupAudioTrack (track : Track) (s : State) : State :=
  let s := log "Setting up audio track" info s in
  match botAudioEl (page s) with
  | Some _ =>
      let s := set_page (set_botAudioEl (Some (Some [track])) (page s)) s in
      emit (Play track) s
  | None => s
  end.

Definition setupMediaTracks (s : State) : State :=
  match rtviClient s with
  | None => s
  | Some c =>
      match clients s !! c with
      | Some cl =>
          match botAudio cl with
          | Some t => setupAudioTrack t s
          | None => s
          end
      | None => s
      end
  end.

Definition nonLocalAudio (t : Track) (p : option Participant) : bool :=
  negb (match p with Some q => local q | None => false end)
  && String.eqb (kind t) "audio".

Definition onTrackStarted (t : Track) (p : option Participant) (s : State) : State :=
  if nonLocalAudio t p
  then updateStatusText "Bot is speaking..." (setupAudioTrack t s)
  else s.

Definition onTrackStopped (t : Track) (p : option Participant) (s : State) : State :=
  if nonLocalAudio t p then updateStatusText "Ready" s else s.

Definition setupTrackListeners (s : State) : State :=
  match rtviClient s with
  | None => s
  | Some c =>
      let s := emit (On c TrackStartedEv) (update_client c (add_listener TrackStartedEv) s) in
      emit (On c TrackStoppedEv) (update_client c (add_listener TrackStoppedEv) s)
  end.

Definition plugLabel (what : string) : string :=
  "<i class=" +:+ dquote +:+ "fas fa-plug" +:+ dquote +:+ "></i> " +:+ what.

Definition setInnerHTML (html : string) (s : State) : State :=
  match connectBtnChat (page s) with
  | Some _ => set_page (set_connectBtnChat (Some html) (page s)) s
  | None => s
  end.

Definition onConnected (s : State) : State :=
  let s := updateConnectionStatus connected s in
  let s := updateStatusText "Connected! Click microphone to start" s in
  let s := setInnerHTML (plugLabel "Disconnect") s in
  match micButton (page s) with
  | Some b =>
      set_page (set_micButton
        (Some {| micDisabled := false; micClasses := micClasses b |}) (page s)) s
  | None => s
  end.

Definition onDisconnected (s : State) : State :=
  let s := updateConnectionStatus disconnected s in
  let s := updateStatusText "Disconnected" s in
  let s := setInnerHTML (plugLabel "Connect") s in
  let s := match micButton (page s) with
           | Some b =>
               set_page (set_micButton
                 (Some {| micDisabled := true;
                          micClasses := classRemove "active" (micClasses b) |})
                 (page s)) s
           | None => s
           end in
  log "Client disconnected" info s.

Definition onBotReady (dataJson : string) (s : State) : State :=
  setupMediaTracks (log ("Bot ready: " +:+ dataJson) info s).

Definition onGenericMessage (m : Message) (s : State) : State :=
  if String.eqb (msgType m) "transcription"
  then log ("[" +:+ msgParticipant m +:+ "] " +:+ msgText m) info s
  else s.

(** Lines 147-155 of app.ts: the microphone button and the status
    line follow the new state of the track. *)
Definition showMicState (isEnabled : bool) (s : State) : State :=
  match micButton (page s) with
  | Some b =>
      if negb isEnabled then
        updateStatusText "Listening..."
          (set_page (set_micButton
             (Some {| micDisabled := micDisabled b;
                      micClasses := classAdd "active" (micClasses b) |})
             (page s)) s)
      else
        updateStatusText "Microphone muted"
          (set_page (set_micButton
             (Some {| micDisabled := micDisabled b;
                      micClasses := classRemove "active" (micClasses b) |})
             (page s)) s)
  | None => s
  end.

Definition toggleMicrophone (s : State) : State :=
  match rtviClient s with
  | None => log "Please connect first" warning s
  | Some c =>
      match clients s !! c with
      | Some cl =>
          match localAudio cl with
          | Some t =>
              let isEnabled := enabled t in
              let s := update_client c
                         (set_localAudio (Some (set_enabled (negb isEnabled) t))) s in
              let s := showMicState isEnabled s in
              log (if isEnabled then "Microphone muted" else "Microphone unmuted") info s
          | None => s
          end
      | None => s
      end
  end.

(** The [change] listener of the bot-type radio buttons. *)
Definition selectBotType (value : string) (checked : bool) (s : State) : State :=
  if checked then
    let s := set_activeTab value s in
    log ("Selected bot type: " +:+ activeTab s) info s
  else s.

(** ** Delivery of transport callbacks *)

(** The number of handlers [client.on(ev, ...)] has attached for [ev]. *)
Definition attached (ev : RTVIEvent) (cl : RTVIClient) : nat :=
  length (filter (fun x => x = ev) (listeners cl)).

Fixpoint times (n : nat) (f : State -> State) (s : State) : State :=
  match n with
  | O => s
  | S n' => times n' f (f s)
  end.

(** The callbacks of the options object are called directly; a track
    event calls every handler attached for it. *)
Definition handle (cb : Callback) (c : nat) (cl : RTVIClient) (s : State) : State :=
  match cb with
  | OnConnected => onConnected s
  | OnDisconnected => onDisconnected s
  | OnBotReady d bot => onBotReady d (update_client c (set_botAudio bot) s)
  | OnGenericMessage m => onGenericMessage m s
  | OnMessageError e => log ("Message error: " +:+ e) error s
  | OnError e => log ("Error: " +:+ e) error s
  | TrackStarted t p => times (attached TrackStartedEv cl) (onTrackStarted t p) s
  | TrackStopped t p => times (attached TrackStoppedEv cl) (onTrackStopped t p) s
  end.

Definition fire (ev : EnvEvent) (s : State) : State :=
  match ev with
  | FromClient c cb =>
      match clients s !! c with
      | Some cl => handle cb c cl s
      | None => s
      end
  | AudioPlayRejected e => log ("Audio play failed: " +:+ e) error s
  end.

Definition deliver (evs : list EnvEvent) (s : State) : State :=
  foldl (fun acc ev => fire ev acc) s evs.

(** ** Exceptions and state: the monad of an async method body *)

Inductive Completion (A : Type) :=
| Normal (a : A)
| Thrown (e : JsError).

Arguments Normal {A} a.
Arguments Thrown {A} e.

Definition M (A : Type) : Type := State -> Completion A * State.

Definition ret {A} (a : A) : M A := fun s => (Normal a, s).

Definition bind {A B} (m : M A) (k : A -> M B) : M B :=
  fun s =>
    match m s with
    | (Normal a, s') => k a s'
    | (Thrown e, s') => (Thrown e, s')
    end.

Definition throw {A} (e : JsError) : M A := fun s => (Thrown e, s).

Definition tryCatch (m : M unit) (h : JsError -> M unit) : M unit :=
  fun s =>
    match m s with
    | (Normal a, s') => (Normal a, s')
    | (Thrown e, s') => h e s'
    end.

Definition modify (f : State -> State) : M unit := fun s => (Normal tt, f s).

Definition gets {A} (f : State -> A) : M A := fun s => (Normal (f s), s).

Definition run {A} (m : M A) (s : State) : State := snd (m s).

Declare Scope js_scope.
Delimit Scope js_scope with js.
Bind Scope js_scope with M.

Notation "x <- m ;; k" := (bind m (fun x => k))
  (at level 20, m at level 99, k at level 200, only parsing) : js_scope.
Notation "m ;; k" := (bind m (fun _ => k))
  (at level 100, k at level 200, only parsing, right associativity) : js_scope.

Local Open Scope js_scope.

(** [this.rtviClient.f(...)]: dereferencing a null field throws. *)
Definition thisClient : M nat :=
  fun s =>
    match rtviClient s with
    | Some c => (Normal c, s)
    | None => (Thrown nullDeref, s)
    end.

(** [await client.m()]: the call is issued, the transport runs (firing
    callbacks into the application), then the promise settles. *)
Definition await (c : nat) (m : Method) (transport : State -> State)
    (r : Settlement) : M unit :=
  modify (emit (Call c m)) ;;
  modify transport ;;
  modify (deliver (fired r)) ;;
  match rejection r with
  | None => modify (emit (Settled c m true))
  | Some e => modify (emit (Settled c m false)) ;; throw e
  end.

Definition newAudioContext : M nat :=
  fun s =>
    let a := length (contexts s) in
    (Normal a, emit (NewAudioContext a) (set_contexts (contexts s ++ [suspended]) s)).

Definition resumeAudioContext (a : nat) : M unit :=
  modify (fun s => emit (ResumeAudioContext a)
                     (set_contexts (<[a := running]> (contexts s)) s)).

Definition closeAudioContext (a : nat) : M unit :=
  modify (fun s => emit (CloseAudioContext a)
                     (set_contexts (<[a := closed]> (contexts s)) s)).

Definition newRTVIClient (o : RTVIClientOptions) : M nat :=
  fun s =>
    let c := length (clients s) in
    (Normal c,
     emit (NewRTVIClient c o)
       (set_clients (clients s ++
          [{| options := o; listeners := []; localAudio := None; botAudio := None |}]) s)).

(** ** The connection URL (lines 213-233 of app.ts) *)

Definition connectUrl (activeTab apiKey systemInstructions : string) : string :=
  let url := "/connect?bot_type=" +:+ activeTab +:+ "&api_key=" +:+ apiKey in
  let url :=
    if String.eqb activeTab "tts-llm-stt" then
      let url := url +:+ "&tts_voice=en-US-Chirp3-HD-Aoede" in
      let url := url +:+ "&tts_pace=1.0" in
      let url := url +:+ "&llm_model=gemini-2.5-flash-lite-preview-06-17" in
      let url := url +:+ "&stt_model=chirp_3" in
      url +:+ "&stt_language=en-IN"
    else
      let url := url +:+ "&model=gemini-live-2.5-flash-preview" in
      let url := url +:+ "&voice=Custom-Female" in
      let url := url +:+ "&language=hi-IN" in
      let url := url +:+ "&tts=true" in
      url +:+ "&tts_pace=1.0" in
  if negb (String.eqb systemInstructions EmptyString) then
    url +:+ "&system_instruction=" +:+ encodeURIComponent systemInstructions
  else url.

Definition RTVIConfig (s : State) (url : string) : RTVIClientOptions :=
  {| baseUrl := if truthy (VITE_WSS_URL s)
                then default EmptyString (VITE_WSS_URL s)
                else getApiBaseUrl (location s);
     connectEndpoint := url;
     enableMic := true;
     enableCam := false |}.

(** ** connect, disconnect, toggleConnection *)

Definition connectCatch (env : Env) (err : JsError) : M unit :=
  modify (log ("Error connecting: " +:+ message err) error) ;;
  modify (updateConnectionStatus disconnected) ;;
  modify (updateStatusText "Connection failed") ;;
  cur <- gets rtviClient ;;
  match cur with
  | Some c =>
      tryCatch (await c MDisconnect id (disconnectResult env))
        (fun disconnectError =>
           modify (log ("Error during disconnect: " +:+ errorToString disconnectError)
                     error))
  | None => ret tt
  end.

(** Lines 287-297: device initialisation, the default mute and the
    session open, on the client the field holds. *)
Definition openSession (env : Env) : M unit :=
  modify (log "Initializing devices..." info) ;;
  c1 <- thisClient ;;
  await c1 MInitDevices (update_client c1 (set_localAudio (mic env)))
    (initDevicesResult env) ;;
  c2 <- thisClient ;;
  localTracks <- gets (fun s => clients s !! c2) ;;
  match localTracks ≫= localAudio with
  | Some t =>
      modify (update_client c2 (set_localAudio (Some (set_enabled false t)))) ;;
      modify (log "Microphone muted by default" info)
  | None => ret tt
  end ;;
  modify (log "Connecting to bot..." info) ;;
  c3 <- thisClient ;;
  await c3 MConnect id (connectResult env).

(** Lines 198-285, then [openSession]. *)
Definition connectTry (env : Env) : M unit :=
  a <- newAudioContext ;;
  modify (set_audioContext (Some a)) ;;
  resumeAudioContext a ;;
  modify (updateConnectionStatus connecting) ;;
  modify (emit NewWebSocketTransport) ;;
  apiKey <- gets (fun s => apiKeyInput (page s)) ;;
  if negb (truthy apiKey) then
    modify (log "API key is required" error) ;;
    modify (updateConnectionStatus disconnected) ;;
    modify (updateStatusText "Please enter API key")
  else
    tab <- gets activeTab ;;
    systemInstructions <- gets (fun s => default EmptyString (systemPrompt s)) ;;
    config <- gets (fun s =>
      RTVIConfig s (connectUrl tab (default EmptyString apiKey) systemInstructions)) ;;
    c <- newRTVIClient config ;;
    modify (set_rtviClient (Some c)) ;;
    modify setupTrackListeners ;;
    openSession env.

Definition connect (env : Env) : M unit :=
  tryCatch (connectTry env) (connectCatch env).

Definition disconnect (env : Env) : M unit :=
  cur <- gets rtviClient ;;
  match cur with
  | Some c =>
      tryCatch
        (await c MDisconnect id (disconnectResult env) ;;
         modify (set_rtviClient None) ;;
         ctx <- gets audioContext ;;
         match ctx with
         | Some a => closeAudioContext a ;; modify (set_audioContext None)
         | None => ret tt
         end)
        (fun err => modify (log ("Error disconnecting: " +:+ message err) error))
  | None => ret tt
  end.

Definition toggleConnection (env : Env) : M unit :=
  cur <- gets rtviClient ;;
  match cur with
  | Some _ => disconnect env
  | None => connect env
  end.

(** [loadDefaultConfiguration]: [resp] is the parsed body of
    [/system-prompt] ([Some d], with [d] its [system_prompt] field) or
    the error the fetch failed with. *)
Definition loadDefaultConfiguration (resp : option string + JsError) (s : State) : State :=
  match resp with
  | inl d => set_systemPrompt d (log "Default configuration loaded" info s)
  | inr e => log ("Error loading configuration: " +:+ errorToString e) error s
  end.

(** ** Observations on a state *)

Fixpoint statusCalls (tr : list Effect) : list ConnStatus :=
  match tr with
  | [] => []
  | StatusUpdate st :: rest => st :: statusCalls rest
  | _ :: rest => statusCalls rest
  end.

(** The Connection Status: the argument of the latest call of
    [updateConnectionStatus]; [disconnected] before the first one. *)
Definition currentStatus (s : State) : ConnStatus :=
  default disconnected (last (statusCalls (trace s))).

Fixpoint newClients (tr : list Effect) : list nat :=
  match tr with
  | [] => []
  | NewRTVIClient c _ :: rest => c :: newClients rest
  | _ :: rest => newClients rest
  end.

Fixpoint transportCalls (tr : list Effect) : list (nat * Method) :=
  match tr with
  | [] => []
  | Call c m :: rest => (c, m) :: transportCalls rest
  | _ :: rest => transportCalls rest
  end.

(** The effects a run added to the trace of the state it started in. *)
Definition effectsSince (s s' : State) : list Effect :=
  drop (length (trace s)) (trace s').

(** The playback source bound to the audio element, if any. *)
Definition boundTrack (s : State) : option (list Track) :=
  botAudioEl (page s) ≫= id.

(** The part of a client object that callbacks never touch. *)
Definition clientCore (cl : RTVIClient) : RTVIClientOptions * list RTVIEvent * option Track :=
  (options cl, listeners cl, localAudio cl).

(** Effects a callback handler can have on the trace. *)
Definition quietEffect (e : Effect) : Prop :=
  match e with
  | ConsoleLog _ | StatusUpdate _ | Play _ => True
  | _ => False
  end.

(** What a handler run may change: the page (but not which elements
    exist, nor the API key), the bot track of a client, and the trace,
    which only grows, by quiet effects. *)
Record frame (s s' : State) : Prop := Frame {
  frame_rtviClient : rtviClient s' = rtviClient s;
  frame_audioContext : audioContext s' = audioContext s;
  frame_contexts : contexts s' = contexts s;
  frame_clients : clientCore <$> clients s' = clientCore <$> clients s;
  frame_apiKey : apiKeyInput (page s') = apiKeyInput (page s);
  frame_audioEl : botAudioEl (page s') = None <-> botAudioEl (page s) = None;
  frame_trace : exists d, trace s' = trace s ++ d /\ Forall quietEffect d
}.

(** The status updates the callbacks fired by the transport cause: one
    per [onConnected] / [onDisconnected] of a client that exists. *)
Definition statusOfEvent (n : nat) (ev : EnvEvent) : list ConnStatus :=
  match ev with
  | FromClient c OnConnected => if bool_decide (c < n) then [connected] else []
  | FromClient c OnDisconnected => if bool_decide (c < n) then [disconnected] else []
  | _ => []
  end.

Definition statusOfFired (n : nat) (evs : list EnvEvent) : list ConnStatus :=
  concat (statusOfEvent n <$> evs).

(** The claim of C3 read on one run: no call of
    [updateConnectionStatus] made by the run has the argument
    [connecting]. *)
Definition neverConnecting (s s' : State) : Prop :=
  connecting ∉ statusCalls (effectsSince s s').

(** The options [connect] passes to [new RTVIClient] from state [s]. *)
Definition configOf (s : State) : RTVIClientOptions :=
  RTVIConfig s (connectUrl (activeTab s) (default EmptyString (apiKeyInput (page s)))
                  (default EmptyString (systemPrompt s))).

(** Effects of the asynchronous part of [connect] on client [c]: quiet
    effects and transport calls on [c], nothing else. *)
Definition sessionEffect (c : nat) (e : Effect) : Prop :=
  match e with
  | ConsoleLog _ | StatusUpdate _ | Play _ => True
  | Call c' _ | Settled c' _ _ => c' = c
  | _ => False
  end.

Definition clientShape (cl : RTVIClient) : RTVIClientOptions * list RTVIEvent :=
  (options cl, listeners cl).

(** What the asynchronous part of [connect] may change. *)
Record tail (c : nat) (s s' : State) : Prop := Tail {
  tail_rtviClient : rtviClient s' = rtviClient s;
  tail_audioContext : audioContext s' = audioContext s;
  tail_contexts : contexts s' = contexts s;
  tail_clients : clientShape <$> clients s' = clientShape <$> clients s;
  tail_audioEl : botAudioEl (page s') = None <-> botAudioEl (page s) = None;
  tail_trace : exists d, trace s' = trace s ++ d /\ Forall (sessionEffect c) d
}.

(** The exception the [try] block of [connect] ends with, if any: the
    rejection of [initDevices], else that of the session open. *)
Definition connectFailure (env : Env) : option JsError :=
  match rejection (initDevicesResult env) with
  | Some e => Some e
  | None => rejection (connectResult env)
  end.

(** The claim of C2 read on one call: [connect] creates no client and
    leaves the Connection Status as it was. *)
Definition connectIsNoop (env : Env) (s : State) : Prop :=
  newClients (effectsSince s (run (connect env) s)) = []
  /\ currentStatus (run (connect env) s) = currentStatus s.

(** The claim of C4 read on one call: after [disconnect] the session
    handle is cleared and the Connection Status is Disconnected. *)
Definition disconnectClears (env : Env) (s : State) : Prop :=
  rtviClient (run (disconnect env) s) = None
  /\ currentStatus (run (disconnect env) s) = disconnected.

(** ** Example data *)

Definition examplePage (key : string) : Page :=
  {| connectBtnChat := Some (plugLabel "Connect");
     micButton := Some {| micDisabled := true; micClasses := ["mic-button"] |};
     statusDot := Some ["status-dot"];
     connectionStatus := Some "Not Connected";
     statusText := Some "Click connect to start";
     apiKeyInput := Some key;
     botAudioEl := Some None |}.

(** The application right after its constructor, with [key] typed
    into the API key input. *)
Definition freshApp (key : string) : State :=
  {| rtviClient := None; audioContext := None; activeTab := "tts-llm-stt";
     page := examplePage key; systemPrompt := None;
     location := {| protocol := "http:"; hostname := "localhost"; port := "5173" |};
     VITE_WSS_URL := None; clients := []; contexts := []; trace := [] |}.

Definition exampleMic : Track := {| trackId := 1; kind := "audio"; enabled := true |}.

Definition exampleBot : Track := {| trackId := 2; kind := "audio"; enabled := true |}.

Definition silent : Settlement := {| fired := []; rejection := None |}.

Definition failing (msg : string) : Settlement :=
  {| fired := []; rejection := Some {| errName := "Error"; message := msg |} |}.

(** A transport that opens the session of client [c] and reports it. *)
Definition envOk (c : nat) : Env :=
  {| mic := Some exampleMic;
     initDevicesResult := silent;
     connectResult := {| fired := [FromClient c OnConnected]; rejection := None |};
     disconnectResult := {| fired := [FromClient c OnDisconnected]; rejection := None |} |}.

(** A transport that fires no callback at all. *)
Definition envSilent : Env :=
  {| mic := Some exampleMic; initDevicesResult := silent;
     connectResult := silent; disconnectResult := silent |}.

(** A transport whose session open is refused and whose release works. *)
Definition envRefused : Env :=
  {| mic := Some exampleMic; initDevicesResult := silent;
     connectResult := failing "WebSocket closed";
     disconnectResult := silent |}.

(** A transport whose release throws. *)
Definition envStuck : Env :=
  {| mic := Some exampleMic; initDevicesResult := silent;
     connectResult := silent; disconnectResult := failing "already closed" |}.

Definition connectedApp : State := run (connect (envOk 0)) (freshApp "abc123").

(** ** Reading a query string back *)

(** [s.split(sep)] for a one-character separator. *)
Fixpoint splitOn (sep : ascii) (s : string) : list string :=
  match s with
  | EmptyString => [EmptyString]
  | String c rest =>
      if Ascii.eqb c sep then EmptyString :: splitOn sep rest
      else match splitOn sep rest with
           | [] => [String c EmptyString]
           | w :: ws => String c w :: ws
           end
  end.

(** The part of [s] after the first [sep] (empty if there is none) and
    the part before it. *)
Fixpoint afterFirst (sep : ascii) (s : string) : string :=
  match s with
  | EmptyString => EmptyString
  | String c rest => if Ascii.eqb c sep then rest else afterFirst sep rest
  end.

Fixpoint beforeFirst (sep : ascii) (s : string) : string :=
  match s with
  | EmptyString => EmptyString
  | String c rest => if Ascii.eqb c sep then EmptyString else String c (beforeFirst sep rest)
  end.

(** The parameters of a URL, in order: the text after [?], cut at
    every [&], each piece cut at its first [=]. *)
Definition queryParams (url : string) : list (string * string) :=
  (fun kv => (beforeFirst "=" kv, afterFirst "=" kv)) <$> splitOn "&" (afterFirst "?" url).

(** One flip of the [enabled] flag of a track. *)
Definition flipEnabled (t : Track) : Track := set_enabled (negb (enabled t)) t.

(** ** The chat widget (lines 77-92 of app.ts)

    [toggleChatbot] and [closeChatbot] touch two elements only, the
    widget and its toggle button, and log one line; they are modelled
    on a record of the class lists of these two elements and return
    the line written to the console. *)

Record ChatbotUi := {
  chatbotWidget : option (list string);   (* classList of #chatbot-widget *)
  chatbotToggle : option (list string)    (* classList of #chatbot-toggle *)
}.

(** [DOMTokenList.toggle]. *)
Definition classToggle (c : string) (l : list string) : list string :=
  if bool_decide (c ∈ l) then classRemove c l else classAdd c l.

Definition logLine (msg : string) (level : LogLevel) : string :=
  "[" +:+ levelUpper level +:+ "] " +:+ msg.

Definition toggleChatbot (u : ChatbotUi) : ChatbotUi * string :=
  let u' := {| chatbotWidget := classToggle "active" <$> chatbotWidget u;
               chatbotToggle := classToggle "active" <$> chatbotToggle u |} in
  let opened := match chatbotWidget u' with
                | Some cls => bool_decide ("active" ∈ cls)
                | None => false
                end in
  (u', logLine (if opened then "Chatbot opened" else "Chatbot closed") info).

Definition closeChatbot (u : ChatbotUi) : ChatbotUi * string :=
  ({| chatbotWidget := classRemove "active" <$> chatbotWidget u;
      chatbotToggle := classRemove "active" <$> chatbotToggle u |},
   logLine "Chatbot closed" info).

(** ** Reading the connection URL back *)

Definition hasChar (c : ascii) (s : string) : bool :=
  existsb (Ascii.eqb c) (list_ascii_of_string s).

(** [pieces.join(sep)] for a one-character separator. *)
Fixpoint joinWith (sep : ascii) (pieces : list string) : string :=
  match pieces with
  | [] => EmptyString
  | [p] => p
  | p :: rest => p +:+ String sep (joinWith sep rest)
  end.

(** The parameters the two branches of lines 217-229 append. *)
Definition variantParams (activeTab : string) : list (string * string) :=
  if String.eqb activeTab "tts-llm-stt" then
    [("tts_voice", "en-US-Chirp3-HD-Aoede"); ("tts_pace", "1.0");
     ("llm_model", "gemini-2.5-flash-lite-preview-06-17");
     ("stt_model", "chirp_3"); ("stt_language", "en-IN")]
  else
    [("model", "gemini-live-2.5-flash-preview"); ("voice", "Custom-Female");
     ("language", "hi-IN"); ("tts", "true"); ("tts_pace", "1.0")].

(** The parameters a server reading [connectUrl] back should find. *)
Definition expectedParams (activeTab apiKey systemInstructions : string)
    : list (string * string) :=
  [("bot_type", activeTab); ("api_key", apiKey)] ++ variantParams activeTab ++
  (if String.eqb systemInstructions EmptyString then []
   else [("system_instruction", encodeURIComponent systemInstructions)]).

(** The value of a hexadecimal digit, upper or lower case. *)
Definition unhex (c : ascii) : option nat :=
  let n := nat_of_ascii c in
  if inRange 48 57 n then Some (n - 48)
  else if inRange 65 70 n then Some (n - 55)
  else if inRange 97 102 n then Some (n - 87)
  else None.

(** Percent-decoding of a byte string: [%XY] is the byte [XY], every
    other byte stands for itself; a [%] not followed by two
    hexadecimal digits is malformed. *)
Fixpoint percentDecode (s : string) : option string :=
  match s with
  | EmptyString => Some EmptyString
  | String c rest =>
      if Ascii.eqb c "%" then
        match rest with
        | String h (String l rest') =>
            match unhex h, unhex l, percentDecode rest' with
            | Some a, Some b, Some r => Some (String (ascii_of_nat (16 * a + b)) r)
            | _, _, _ => None
            end
        | _ => None
        end
      else
        match percentDecode rest with
        | Some r => Some (String c r)
        | None => None
        end
  end.

(** ** The status updates of one connect attempt *)

(** After the status was set to Connecting: the updates of the
    callbacks fired while [initDevices] and the session open are
    awaited, and, when one of them rejects, the Disconnected of the
    [catch] block followed by the updates of the callbacks fired
    during the release. *)
Definition sessionStatuses (env : Env) (n : nat) : list ConnStatus :=
  statusOfFired n (fired (initDevicesResult env)) ++
  match rejection (initDevicesResult env) with
  | Some _ => disconnected :: statusOfFired n (fired (disconnectResult env))
  | None =>
      statusOfFired n (fired (connectResult env)) ++
      match rejection (connectResult env) with
      | Some _ => disconnected :: statusOfFired n (fired (disconnectResult env))
      | None => []
      end
  end.

(** The classes of the status dot after [updateConnectionStatus]. *)
Definition dotClasses (st : ConnStatus) (cls : list string) : list string :=
  match st with
  | connected => classAdd "connected" cls
  | _ => classRemove "connected" cls
  end.

(** [k=v] for each parameter. *)
Definition paramPieces (params : list (string * string)) : list string :=
  (fun kv => kv.1 +:+ String "=" kv.2) <$> params.

(** The number of occurrences of a character. *)
Fixpoint countChar (c : ascii) (s : string) : nat :=
  match s with
  | EmptyString => 0
  | String x rest => (if Ascii.eqb c x then 1 else 0) + countChar c rest
  end.

(** Whether an element is there and carries the class [active]. *)
Definition isActive (e : option (list string)) : bool :=
  match e with
  | Some cls => bool_decide ("active" ∈ cls)
  | None => false
  end.

(** Whether an element was found in the page. *)
Definition present (e : option (list string)) : bool :=
  match e with
  | Some _ => true
  | None => false
  end.

(** ** Sequences of events

    What [setupEventListeners] (lines 54-75) and the constructor wire
    up: a click on the connect button runs [toggleConnection], a click
    on the microphone button runs [toggleMicrophone], a change of a
    bot-type radio button runs its listener, the fetch of
    [loadDefaultConfiguration] settles; in between the transport may
    call back, and [connect] and [disconnect] are public methods. *)
Inductive Action :=
| ClickConnect (env : Env)
| ClickMic
| ChangeBotType (value : string) (checked : bool)
| ConfigurationFetched (resp : option string + JsError)
| CallConnect (env : Env)
| CallDisconnect (env : Env)
| Callbacks (evs : list EnvEvent).

Definition perform (a : Action) (s : State) : State :=
  match a with
  | ClickConnect env => run (toggleConnection env) s
  | ClickMic => toggleMicrophone s
  | ChangeBotType value checked => selectBotType value checked s
  | ConfigurationFetched resp => loadDefaultConfiguration resp s
  | CallConnect env => run (connect env) s
  | CallDisconnect env => run (disconnect env) s
  | Callbacks evs => deliver evs s
  end.

Definition performAll (acts : list Action) (s : State) : State :=
  foldl (fun acc a => perform a acc) s acts.

(** The actions that change a setting. *)
Definition isSetting (a : Action) : bool :=
  match a with
  | ChangeBotType _ _ | ConfigurationFetched _ => true
  | _ => false
  end.

(** The settings [connect] reads: the bot type, the API key, the
    instruction text and the two sources of the base URL. *)
Definition sameSettings (s s' : State) : Prop :=
  activeTab s' = activeTab s
  /\ apiKeyInput (page s') = apiKeyInput (page s)
  /\ systemPrompt s' = systemPrompt s
  /\ location s' = location s
  /\ VITE_WSS_URL s' = VITE_WSS_URL s.

(** A state in which a bot track is playing. *)
Definition playingApp : State :=
  fire (FromClient 0 (TrackStarted exampleBot None)) connectedApp.

(** * Properties *)

(** ** Lists and strings *)

Lemma lookup_snoc_length {A} (l : list A) (x : A) : (l ++ [x]) !! length l = Some x.
Proof. by rewrite list_lookup_middle. Qed.

Lemma insert_snoc_length {A} (l : list A) (x y : A) :
  <[length l := y]> (l ++ [x]) = l ++ [y].
Proof.
  rewrite insert_app_r_alt; [|done].
  by rewrite Nat.sub_diag.
Qed.

Lemma statusCalls_app (a b : list Effect) :
  statusCalls (a ++ b) = statusCalls a ++ statusCalls b.
Proof.
  induction a as [|e a IH]; [done|].
  destruct e; simpl; by rewrite ?IH.
Qed.

Lemma newClients_app (a b : list Effect) :
  newClients (a ++ b) = newClients a ++ newClients b.
Proof.
  induction a as [|e a IH]; [done|].
  destruct e; simpl; by rewrite ?IH.
Qed.

Lemma transportCalls_app (a b : list Effect) :
  transportCalls (a ++ b) = transportCalls a ++ transportCalls b.
Proof.
  induction a as [|e a IH]; [done|].
  destruct e; simpl; by rewrite ?IH.
Qed.

Lemma quiet_newClients (d : list Effect) : Forall quietEffect d -> newClients d = [].
Proof.
  induction 1 as [|e d He _ IH]; [done|].
  by destruct e.
Qed.

Lemma quiet_transportCalls (d : list Effect) :
  Forall quietEffect d -> transportCalls d = [].
Proof.
  induction 1 as [|e d He _ IH]; [done|].
  by destruct e.
Qed.

Lemma append_assoc (a b c : string) : (a +:+ b) +:+ c = a +:+ (b +:+ c).
Proof.
  induction a as [|x a IH]; [done|].
  change (String x ((a +:+ b) +:+ c) = String x (a +:+ (b +:+ c))).
  by f_equal.
Qed.

(** ** Frames *)

Lemma frame_refl s : frame s s.
Proof. split; try done. exists []. by rewrite app_nil_r. Qed.

Lemma frame_trans s1 s2 s3 : frame s1 s2 -> frame s2 s3 -> frame s1 s3.
Proof.
  intros [? ? ? ? ? ? (d1 & ? & ?)] [? ? ? ? ? ? (d2 & ? & ?)].
  split; try congruence; [tauto|].
  exists (d1 ++ d2). split; [|by apply Forall_app].
  rewrite app_assoc. congruence.
Qed.

Lemma frame_emit e s : quietEffect e -> frame s (emit e s).
Proof. intros He. split; try done. exists [e]. by split; [|constructor]. Qed.

Lemma frame_log msg lvl s : frame s (log msg lvl s).
Proof. by apply frame_emit. Qed.

Lemma frame_updateConnectionStatus st s : frame s (updateConnectionStatus st s).
Proof.
  unfold updateConnectionStatus. simpl.
  destruct (statusDot (page s)) as [cls|];
    [|by apply frame_emit].
  split; simpl; try done.
  - by destruct (connectionStatus (page s)).
  - by destruct (connectionStatus (page s)).
  - exists [StatusUpdate st]. by split; [|constructor].
Qed.

Lemma frame_updateStatusText text s : frame s (updateStatusText text s).
Proof.
  unfold updateStatusText. destruct (statusText (page s)); [|apply frame_refl].
  split; simpl; try done. exists []. by rewrite app_nil_r.
Qed.

Lemma frame_setInnerHTML html s : frame s (setInnerHTML html s).
Proof.
  unfold setInnerHTML. destruct (connectBtnChat (page s)); [|apply frame_refl].
  split; simpl; try done. exists []. by rewrite app_nil_r.
Qed.

Lemma frame_set_micButton b s :
  frame s (set_page (set_micButton b (page s)) s).
Proof. split; simpl; try done. exists []. by rewrite app_nil_r. Qed.

Lemma frame_setupAudioTrack t s : frame s (setupAudioTrack t s).
Proof.
  unfold setupAudioTrack. simpl.
  destruct (botAudioEl (page s)) eqn:Hel; [|by apply frame_log].
  split; simpl; try done.
  - by rewrite Hel.
  - exists [ConsoleLog "[INFO] Setting up audio track"; Play t].
    split; [by rewrite <- app_assoc|]. by repeat constructor.
Qed.

Lemma frame_setupMediaTracks s : frame s (setupMediaTracks s).
Proof.
  unfold setupMediaTracks.
  destruct (rtviClient s) as [c|]; [|apply frame_refl].
  destruct (clients s !! c) as [cl|]; [|apply frame_refl].
  destruct (botAudio cl); [apply frame_setupAudioTrack|apply frame_refl].
Qed.

Lemma frame_set_botAudio c bot s : frame s (update_client c (set_botAudio bot) s).
Proof.
  unfold update_client. destruct (clients s !! c) as [cl|] eqn:Hc; [|apply frame_refl].
  split; simpl; try done; [|exists []; by rewrite app_nil_r].
  rewrite list_fmap_insert. apply list_insert_id.
  by rewrite list_lookup_fmap, Hc.
Qed.

Lemma frame_onConnected s : frame s (onConnected s).
Proof.
  unfold onConnected.
  eapply frame_trans; [apply frame_updateConnectionStatus|].
  eapply frame_trans; [apply frame_updateStatusText|].
  eapply frame_trans; [apply frame_setInnerHTML|].
  case_match; [apply frame_set_micButton|apply frame_refl].
Qed.

Lemma frame_onDisconnected s : frame s (onDisconnected s).
Proof.
  unfold onDisconnected.
  eapply frame_trans; [apply frame_updateConnectionStatus|].
  eapply frame_trans; [apply frame_updateStatusText|].
  eapply frame_trans; [apply frame_setInnerHTML|].
  eapply frame_trans; [|apply frame_log].
  case_match; [apply frame_set_micButton|apply frame_refl].
Qed.

Lemma frame_onTrackStarted t p s : frame s (onTrackStarted t p s).
Proof.
  unfold onTrackStarted. case_match; [|apply frame_refl].
  eapply frame_trans; [apply frame_setupAudioTrack|apply frame_updateStatusText].
Qed.

Lemma frame_onTrackStopped t p s : frame s (onTrackStopped t p s).
Proof.
  unfold onTrackStopped. case_match; [apply frame_updateStatusText|apply frame_refl].
Qed.

Lemma frame_times n f s : (forall x, frame x (f x)) -> frame s (times n f s).
Proof.
  intros Hf. revert s. induction n as [|n IH]; intros s; [apply frame_refl|].
  cbn. eapply frame_trans; [apply Hf|apply IH].
Qed.

Lemma frame_fire ev s : frame s (fire ev s).
Proof.
  destruct ev as [c cb|e]; simpl; [|apply frame_log].
  destruct (clients s !! c) as [cl|]; [|apply frame_refl].
  destruct cb; simpl.
  - apply frame_onConnected.
  - apply frame_onDisconnected.
  - unfold onBotReady.
    eapply frame_trans; [apply frame_set_botAudio|].
    eapply frame_trans; [apply frame_log|apply frame_setupMediaTracks].
  - unfold onGenericMessage. case_match; [apply frame_log|apply frame_refl].
  - apply frame_log.
  - apply frame_log.
  - apply frame_times, frame_onTrackStarted.
  - apply frame_times, frame_onTrackStopped.
Qed.

Lemma frame_deliver evs s : frame s (deliver evs s).
Proof.
  revert s. induction evs as [|ev evs IH]; intros s; [apply frame_refl|].
  simpl. eapply frame_trans; [apply frame_fire|apply IH].
Qed.

(** ** Traces of the helpers *)

Arguments log : simpl never.
Arguments updateConnectionStatus : simpl never.
Arguments updateStatusText : simpl never.
Arguments setInnerHTML : simpl never.
Arguments setupAudioTrack : simpl never.
Arguments setupMediaTracks : simpl never.
Arguments onConnected : simpl never.
Arguments onDisconnected : simpl never.
Arguments update_client : simpl never.
Arguments deliver : simpl never.
Arguments setupTrackListeners : simpl never.
Arguments openSession : simpl never.
Arguments connectCatch : simpl never.

Lemma trace_log msg lvl s :
  trace (log msg lvl s) = trace s ++ [ConsoleLog ("[" +:+ levelUpper lvl +:+ "] " +:+ msg)].
Proof. done. Qed.

Lemma trace_updateConnectionStatus st s :
  trace (updateConnectionStatus st s) = trace s ++ [StatusUpdate st].
Proof. unfold updateConnectionStatus. cbn. by destruct (statusDot (page s)). Qed.

Lemma trace_updateStatusText text s : trace (updateStatusText text s) = trace s.
Proof. unfold updateStatusText. by destruct (statusText (page s)). Qed.

Lemma trace_setInnerHTML html s : trace (setInnerHTML html s) = trace s.
Proof. unfold setInnerHTML. by destruct (connectBtnChat (page s)). Qed.

Lemma trace_update_client c f s : trace (update_client c f s) = trace s.
Proof. unfold update_client. by destruct (clients s !! c). Qed.

Lemma statusCalls_setupAudioTrack t s :
  statusCalls (trace (setupAudioTrack t s)) = statusCalls (trace s).
Proof.
  unfold setupAudioTrack, log. cbn.
  destruct (botAudioEl (page s)); cbn;
    rewrite ?statusCalls_app; cbn; by rewrite ?app_nil_r.
Qed.

Lemma statusCalls_log msg lvl s :
  statusCalls (trace (log msg lvl s)) = statusCalls (trace s).
Proof. rewrite trace_log, statusCalls_app. simpl. by rewrite app_nil_r. Qed.

Lemma statusCalls_onConnected s :
  statusCalls (trace (onConnected s)) = statusCalls (trace s) ++ [connected].
Proof.
  unfold onConnected. cbv zeta.
  assert (forall x, trace (match micButton (page x) with
                           | Some b => set_page (set_micButton
                               (Some {| micDisabled := false; micClasses := micClasses b |})
                               (page x)) x
                           | None => x end) = trace x) as E
    by (intros x; by destruct (micButton (page x))).
  rewrite E, trace_setInnerHTML, trace_updateStatusText, trace_updateConnectionStatus.
  by rewrite statusCalls_app.
Qed.

Lemma statusCalls_onDisconnected s :
  statusCalls (trace (onDisconnected s)) = statusCalls (trace s) ++ [disconnected].
Proof.
  unfold onDisconnected. cbv zeta. rewrite statusCalls_log.
  assert (forall x, trace (match micButton (page x) with
                           | Some b => set_page (set_micButton
                               (Some {| micDisabled := true;
                                        micClasses := classRemove "active" (micClasses b) |})
                               (page x)) x
                           | None => x end) = trace x) as E
    by (intros x; by destruct (micButton (page x))).
  rewrite E, trace_setInnerHTML, trace_updateStatusText, trace_updateConnectionStatus.
  by rewrite statusCalls_app.
Qed.

Lemma statusCalls_setupMediaTracks s :
  statusCalls (trace (setupMediaTracks s)) = statusCalls (trace s).
Proof.
  unfold setupMediaTracks.
  destruct (rtviClient s) as [c|]; [|done].
  destruct (clients s !! c) as [cl|]; [|done].
  destruct (botAudio cl); [apply statusCalls_setupAudioTrack|done].
Qed.

Lemma statusCalls_times n f s :
  (forall x, statusCalls (trace (f x)) = statusCalls (trace x)) ->
  statusCalls (trace (times n f s)) = statusCalls (trace s).
Proof.
  intros Hf. revert s. induction n as [|n IH]; intros s; [done|].
  cbn. by rewrite IH, Hf.
Qed.

Lemma statusCalls_fire ev s :
  statusCalls (trace (fire ev s))
  = statusCalls (trace s) ++ statusOfEvent (length (clients s)) ev.
Proof.
  destruct ev as [c cb|e]; cbn; [|by rewrite statusCalls_log, app_nil_r].
  destruct (clients s !! c) as [cl|] eqn:Hc.
  - apply lookup_lt_Some in Hc.
    destruct cb; cbn; rewrite ?bool_decide_eq_true_2 by done.
    + apply statusCalls_onConnected.
    + apply statusCalls_onDisconnected.
    + unfold onBotReady.
      by rewrite statusCalls_setupMediaTracks, statusCalls_log, trace_update_client,
        app_nil_r.
    + unfold onGenericMessage. case_match; by rewrite ?statusCalls_log, app_nil_r.
    + by rewrite statusCalls_log, app_nil_r.
    + by rewrite statusCalls_log, app_nil_r.
    + rewrite app_nil_r. apply statusCalls_times. intros x.
      unfold onTrackStarted. case_match;
        by rewrite ?trace_updateStatusText, ?statusCalls_setupAudioTrack.
    + rewrite app_nil_r. apply statusCalls_times. intros x.
      unfold onTrackStopped. case_match; by rewrite ?trace_updateStatusText.
  - apply lookup_ge_None in Hc.
    destruct cb; cbn; rewrite ?bool_decide_eq_false_2 by lia; by rewrite app_nil_r.
Qed.

Lemma length_clients_frame s s' : frame s s' -> length (clients s') = length (clients s).
Proof.
  intros F. by rewrite <- (length_fmap clientCore (clients s')),
    (frame_clients _ _ F), length_fmap.
Qed.

Lemma deliver_cons ev evs s : deliver (ev :: evs) s = deliver evs (fire ev s).
Proof. done. Qed.

Lemma deliver_snoc evs ev s : deliver (evs ++ [ev]) s = fire ev (deliver evs s).
Proof. unfold deliver. by rewrite foldl_snoc. Qed.

Lemma statusCalls_deliver evs s :
  statusCalls (trace (deliver evs s))
  = statusCalls (trace s) ++ statusOfFired (length (clients s)) evs.
Proof.
  revert s. induction evs as [|ev evs IH]; intros s.
  - by rewrite app_nil_r.
  - rewrite deliver_cons, IH, statusCalls_fire,
      (length_clients_frame _ _ (frame_fire ev s)).
    unfold statusOfFired. cbn. by rewrite app_assoc.
Qed.

(** ** Projections through the field updates

    One equation per field and update, so that later proofs rewrite
    with them instead of unfolding the records. *)

Lemma rtviClient_set_rtviClient v s : rtviClient (set_rtviClient v s) = v.
Proof. done. Qed.

Lemma audioContext_set_rtviClient v s : audioContext (set_rtviClient v s) = audioContext s.
Proof. done. Qed.

Lemma activeTab_set_rtviClient v s : activeTab (set_rtviClient v s) = activeTab s.
Proof. done. Qed.

Lemma page_set_rtviClient v s : page (set_rtviClient v s) = page s.
Proof. done. Qed.

Lemma systemPrompt_set_rtviClient v s : systemPrompt (set_rtviClient v s) = systemPrompt s.
Proof. done. Qed.

Lemma location_set_rtviClient v s : location (set_rtviClient v s) = location s.
Proof. done. Qed.

Lemma VITE_WSS_URL_set_rtviClient v s : VITE_WSS_URL (set_rtviClient v s) = VITE_WSS_URL s.
Proof. done. Qed.

Lemma clients_set_rtviClient v s : clients (set_rtviClient v s) = clients s.
Proof. done. Qed.

Lemma contexts_set_rtviClient v s : contexts (set_rtviClient v s) = contexts s.
Proof. done. Qed.

Lemma trace_set_rtviClient v s : trace (set_rtviClient v s) = trace s.
Proof. done. Qed.

Lemma rtviClient_set_audioContext v s : rtviClient (set_audioContext v s) = rtviClient s.
Proof. done. Qed.

Lemma audioContext_set_audioContext v s : audioContext (set_audioContext v s) = v.
Proof. done. Qed.

Lemma activeTab_set_audioContext v s : activeTab (set_audioContext v s) = activeTab s.
Proof. done. Qed.

Lemma page_set_audioContext v s : page (set_audioContext v s) = page s.
Proof. done. Qed.

Lemma systemPrompt_set_audioContext v s : systemPrompt (set_audioContext v s) = systemPrompt s.
Proof. done. Qed.

Lemma location_set_audioContext v s : location (set_audioContext v s) = location s.
Proof. done. Qed.

Lemma VITE_WSS_URL_set_audioContext v s : VITE_WSS_URL (set_audioContext v s) = VITE_WSS_URL s.
Proof. done. Qed.

Lemma clients_set_audioContext v s : clients (set_audioContext v s) = clients s.
Proof. done. Qed.

Lemma contexts_set_audioContext v s : contexts (set_audioContext v s) = contexts s.
Proof. done. Qed.

Lemma trace_set_audioContext v s : trace (set_audioContext v s) = trace s.
Proof. done. Qed.

Lemma rtviClient_set_page v s : rtviClient (set_page v s) = rtviClient s.
Proof. done. Qed.

Lemma audioContext_set_page v s : audioContext (set_page v s) = audioContext s.
Proof. done. Qed.

Lemma activeTab_set_page v s : activeTab (set_page v s) = activeTab s.
Proof. done. Qed.

Lemma page_set_page v s : page (set_page v s) = v.
Proof. done. Qed.

Lemma systemPrompt_set_page v s : systemPrompt (set_page v s) = systemPrompt s.
Proof. done. Qed.

Lemma location_set_page v s : location (set_page v s) = location s.
Proof. done. Qed.

Lemma VITE_WSS_URL_set_page v s : VITE_WSS_URL (set_page v s) = VITE_WSS_URL s.
Proof. done. Qed.

Lemma clients_set_page v s : clients (set_page v s) = clients s.
Proof. done. Qed.

Lemma contexts_set_page v s : contexts (set_page v s) = contexts s.
Proof. done. Qed.

Lemma trace_set_page v s : trace (set_page v s) = trace s.
Proof. done. Qed.

Lemma rtviClient_set_clients v s : rtviClient (set_clients v s) = rtviClient s.
Proof. done. Qed.

Lemma audioContext_set_clients v s : audioContext (set_clients v s) = audioContext s.
Proof. done. Qed.

Lemma activeTab_set_clients v s : activeTab (set_clients v s) = activeTab s.
Proof. done. Qed.

Lemma page_set_clients v s : page (set_clients v s) = page s.
Proof. done. Qed.

Lemma systemPrompt_set_clients v s : systemPrompt (set_clients v s) = systemPrompt s.
Proof. done. Qed.

Lemma location_set_clients v s : location (set_clients v s) = location s.
Proof. done. Qed.

Lemma VITE_WSS_URL_set_clients v s : VITE_WSS_URL (set_clients v s) = VITE_WSS_URL s.
Proof. done. Qed.

Lemma clients_set_clients v s : clients (set_clients v s) = v.
Proof. done. Qed.

Lemma contexts_set_clients v s : contexts (set_clients v s) = contexts s.
Proof. done. Qed.

Lemma trace_set_clients v s : trace (set_clients v s) = trace s.
Proof. done. Qed.

Lemma rtviClient_set_contexts v s : rtviClient (set_contexts v s) = rtviClient s.
Proof. done. Qed.

Lemma audioContext_set_contexts v s : audioContext (set_contexts v s) = audioContext s.
Proof. done. Qed.

Lemma activeTab_set_contexts v s : activeTab (set_contexts v s) = activeTab s.
Proof. done. Qed.

Lemma page_set_contexts v s : page (set_contexts v s) = page s.
Proof. done. Qed.

Lemma systemPrompt_set_contexts v s : systemPrompt (set_contexts v s) = systemPrompt s.
Proof. done. Qed.

Lemma location_set_contexts v s : location (set_contexts v s) = location s.
Proof. done. Qed.

Lemma VITE_WSS_URL_set_contexts v s : VITE_WSS_URL (set_contexts v s) = VITE_WSS_URL s.
Proof. done. Qed.

Lemma clients_set_contexts v s : clients (set_contexts v s) = clients s.
Proof. done. Qed.

Lemma contexts_set_contexts v s : contexts (set_contexts v s) = v.
Proof. done. Qed.

Lemma trace_set_contexts v s : trace (set_contexts v s) = trace s.
Proof. done. Qed.

Lemma rtviClient_emit e s : rtviClient (emit e s) = rtviClient s.
Proof. done. Qed.

Lemma audioContext_emit e s : audioContext (emit e s) = audioContext s.
Proof. done. Qed.

Lemma activeTab_emit e s : activeTab (emit e s) = activeTab s.
Proof. done. Qed.

Lemma page_emit e s : page (emit e s) = page s.
Proof. done. Qed.

Lemma systemPrompt_emit e s : systemPrompt (emit e s) = systemPrompt s.
Proof. done. Qed.

Lemma location_emit e s : location (emit e s) = location s.
Proof. done. Qed.

Lemma VITE_WSS_URL_emit e s : VITE_WSS_URL (emit e s) = VITE_WSS_URL s.
Proof. done. Qed.

Lemma clients_emit e s : clients (emit e s) = clients s.
Proof. done. Qed.

Lemma contexts_emit e s : contexts (emit e s) = contexts s.
Proof. done. Qed.

Lemma trace_emit e s : trace (emit e s) = trace s ++ [e].
Proof. done. Qed.

Create Rewrite HintDb proj.

#[export] Hint Rewrite
  rtviClient_set_rtviClient audioContext_set_rtviClient
  activeTab_set_rtviClient page_set_rtviClient systemPrompt_set_rtviClient
  location_set_rtviClient VITE_WSS_URL_set_rtviClient clients_set_rtviClient
  contexts_set_rtviClient trace_set_rtviClient rtviClient_set_audioContext
  audioContext_set_audioContext activeTab_set_audioContext
  page_set_audioContext systemPrompt_set_audioContext
  location_set_audioContext VITE_WSS_URL_set_audioContext
  clients_set_audioContext contexts_set_audioContext trace_set_audioContext
  rtviClient_set_page audioContext_set_page activeTab_set_page page_set_page
  systemPrompt_set_page location_set_page VITE_WSS_URL_set_page
  clients_set_page contexts_set_page trace_set_page rtviClient_set_clients
  audioContext_set_clients activeTab_set_clients page_set_clients
  systemPrompt_set_clients location_set_clients VITE_WSS_URL_set_clients
  clients_set_clients contexts_set_clients trace_set_clients
  rtviClient_set_contexts audioContext_set_contexts activeTab_set_contexts
  page_set_contexts systemPrompt_set_contexts location_set_contexts
  VITE_WSS_URL_set_contexts clients_set_contexts contexts_set_contexts
  trace_set_contexts rtviClient_emit audioContext_emit activeTab_emit
  page_emit systemPrompt_emit location_emit VITE_WSS_URL_emit clients_emit
  contexts_emit trace_emit : proj.

Arguments emit : simpl never.
Arguments set_rtviClient : simpl never.
Arguments set_audioContext : simpl never.
Arguments set_page : simpl never.
Arguments set_clients : simpl never.
Arguments set_contexts : simpl never.
Arguments connectUrl : simpl never.
Arguments RTVIConfig : simpl never.

(** ** Projections through the helpers *)

Lemma apiKeyInput_updateConnectionStatus st s :
  apiKeyInput (page (updateConnectionStatus st s)) = apiKeyInput (page s).
Proof. apply (frame_apiKey _ _ (frame_updateConnectionStatus st s)). Qed.

Lemma statusText_updateStatusText text s :
  statusText (page (updateStatusText text s)) = (fun _ => text) <$> statusText (page s).
Proof.
  unfold updateStatusText.
  by destruct (statusText (page s)) eqn:E; autorewrite with proj; cbn; rewrite ?E.
Qed.

Lemma connectionStatus_updateStatusText text s :
  connectionStatus (page (updateStatusText text s)) = connectionStatus (page s).
Proof. unfold updateStatusText. by destruct (statusText (page s)). Qed.

Lemma statusDot_updateStatusText text s :
  statusDot (page (updateStatusText text s)) = statusDot (page s).
Proof. unfold updateStatusText. by destruct (statusText (page s)). Qed.

Lemma connectionStatus_updateConnectionStatus st s :
  connectionStatus (page (updateConnectionStatus st s))
  = match statusDot (page s) with
    | Some _ => (fun _ => statusLabel st) <$> connectionStatus (page s)
    | None => connectionStatus (page s)
    end.
Proof.
  unfold updateConnectionStatus. cbv zeta. autorewrite with proj.
  destruct (statusDot (page s)); [|done]. autorewrite with proj.
  by destruct (connectionStatus (page s)) eqn:E; cbn; rewrite ?E.
Qed.

Lemma effectsSince_app s s' d : trace s' = trace s ++ d -> effectsSince s s' = d.
Proof. unfold effectsSince. intros ->. apply drop_app_length. Qed.

Lemma currentStatus_snoc s s' d st :
  trace s' = trace s ++ d -> last (statusCalls d) = Some st -> currentStatus s' = st.
Proof.
  unfold currentStatus. intros -> Hd. rewrite statusCalls_app.
  destruct (statusCalls d) as [|x l] using rev_ind; [done|].
  rewrite app_assoc, last_snoc. rewrite last_snoc in Hd. by simplify_eq.
Qed.

(** [log], [updateConnectionStatus] and [updateStatusText] touch the
    page and the trace only. *)
Section PageOnly.
Context {A : Type} (proj : State -> A).
Hypothesis proj_page : forall p s, proj (set_page p s) = proj s.
Hypothesis proj_emit : forall e s, proj (emit e s) = proj s.

Lemma proj_log msg lvl s : proj (log msg lvl s) = proj s.
Proof. apply proj_emit. Qed.

Lemma proj_updateConnectionStatus st s : proj (updateConnectionStatus st s) = proj s.
Proof.
  unfold updateConnectionStatus. cbv zeta. rewrite page_emit.
  destruct (statusDot (page s)); by rewrite ?proj_page, ?proj_emit.
Qed.

Lemma proj_updateStatusText text s : proj (updateStatusText text s) = proj s.
Proof. unfold updateStatusText. destruct (statusText (page s)); by rewrite ?proj_page. Qed.
End PageOnly.

Lemma rtviClient_deliver evs s : rtviClient (deliver evs s) = rtviClient s.
Proof. apply (frame_rtviClient _ _ (frame_deliver evs s)). Qed.

Lemma audioContext_deliver evs s : audioContext (deliver evs s) = audioContext s.
Proof. apply (frame_audioContext _ _ (frame_deliver evs s)). Qed.

Lemma contexts_deliver evs s : contexts (deliver evs s) = contexts s.
Proof. apply (frame_contexts _ _ (frame_deliver evs s)). Qed.

Lemma rtviClient_update_client c f s : rtviClient (update_client c f s) = rtviClient s.
Proof. unfold update_client. by destruct (clients s !! c). Qed.

Lemma audioContext_update_client c f s :
  audioContext (update_client c f s) = audioContext s.
Proof. unfold update_client. by destruct (clients s !! c). Qed.

Lemma contexts_update_client c f s : contexts (update_client c f s) = contexts s.
Proof. unfold update_client. by destruct (clients s !! c). Qed.

Lemma page_update_client c f s : page (update_client c f s) = page s.
Proof. unfold update_client. by destruct (clients s !! c). Qed.

Lemma clients_update_client c f s cl :
  clients s !! c = Some cl ->
  clients (update_client c f s) = <[c := f cl]> (clients s).
Proof. unfold update_client. by intros ->. Qed.

#[export] Hint Rewrite
  (proj_log rtviClient) (proj_updateConnectionStatus rtviClient)
  (proj_updateStatusText rtviClient)
  (proj_log audioContext) (proj_updateConnectionStatus audioContext)
  (proj_updateStatusText audioContext)
  (proj_log contexts) (proj_updateConnectionStatus contexts)
  (proj_updateStatusText contexts)
  (proj_log clients) (proj_updateConnectionStatus clients)
  (proj_updateStatusText clients)
  (proj_log activeTab) (proj_updateConnectionStatus activeTab)
  (proj_log systemPrompt) (proj_updateConnectionStatus systemPrompt)
  (proj_log location) (proj_updateConnectionStatus location)
  (proj_log VITE_WSS_URL) (proj_updateConnectionStatus VITE_WSS_URL)
  using done : proj.

#[export] Hint Rewrite
  rtviClient_deliver audioContext_deliver contexts_deliver
  rtviClient_update_client audioContext_update_client contexts_update_client
  page_update_client trace_update_client
  trace_log trace_updateConnectionStatus trace_updateStatusText
  apiKeyInput_updateConnectionStatus
  statusText_updateStatusText connectionStatus_updateStatusText
  statusDot_updateStatusText : proj.

(** ** Equations of the monad *)

Lemma bind_modify {B} f (k : unit -> M B) s : bind (modify f) k s = k tt (f s).
Proof. done. Qed.

Lemma bind_gets {A B} (f : State -> A) (k : A -> M B) s : bind (gets f) k s = k (f s) s.
Proof. done. Qed.

Lemma bind_ret {A B} (a : A) (k : A -> M B) s : bind (ret a) k s = k a s.
Proof. done. Qed.

Lemma bind_throw {A B} e (k : A -> M B) s : bind (throw e) k s = (Thrown e, s).
Proof. done. Qed.

Lemma bind_assoc {A B C} (m : M A) (k : A -> M B) (h : B -> M C) s :
  bind (bind m k) h s = bind m (fun a => bind (k a) h) s.
Proof. unfold bind. by destruct (m s) as [[a|e] s']. Qed.

Lemma bind_thisClient {B} (k : nat -> M B) s c :
  rtviClient s = Some c -> bind thisClient k s = k c s.
Proof. unfold bind, thisClient. by intros ->. Qed.

Lemma bind_newAudioContext {B} (k : nat -> M B) s :
  bind newAudioContext k s
  = k (length (contexts s))
      (emit (NewAudioContext (length (contexts s)))
         (set_contexts (contexts s ++ [suspended]) s)).
Proof. done. Qed.

Lemma bind_newRTVIClient {B} o (k : nat -> M B) s :
  bind (newRTVIClient o) k s
  = k (length (clients s))
      (emit (NewRTVIClient (length (clients s)) o)
         (set_clients (clients s ++
            [{| options := o; listeners := []; localAudio := None; botAudio := None |}]) s)).
Proof. done. Qed.

Lemma modify_run f s : modify f s = (Normal tt, f s).
Proof. done. Qed.

Lemma tryCatch_run m h s :
  tryCatch m h s
  = match m s with
    | (Normal a, s') => (Normal a, s')
    | (Thrown e, s') => h e s'
    end.
Proof. done. Qed.

(** [await] resolves or rejects after the callbacks have run. *)
Lemma bind_await {B} c m tr r (k : unit -> M B) s :
  bind (await c m tr r) k s
  = match rejection r with
    | None => k tt (emit (Settled c m true) (deliver (fired r) (tr (emit (Call c m) s))))
    | Some e => (Thrown e, emit (Settled c m false) (deliver (fired r) (tr (emit (Call c m) s))))
    end.
Proof. unfold await, bind, modify, throw. by destruct (rejection r). Qed.

Lemma await_run c m tr r s :
  await c m tr r s
  = match rejection r with
    | None => (Normal tt, emit (Settled c m true) (deliver (fired r) (tr (emit (Call c m) s))))
    | Some e => (Thrown e, emit (Settled c m false) (deliver (fired r) (tr (emit (Call c m) s))))
    end.
Proof. unfold await, bind, modify, throw. by destruct (rejection r). Qed.

Ltac step :=
  first
    [ rewrite bind_modify | rewrite bind_gets | rewrite bind_ret
    | rewrite bind_newAudioContext | rewrite bind_newRTVIClient
    | rewrite bind_assoc ];
  cbv beta.

Ltac steps := repeat step; autorewrite with proj.

Lemma page_log msg lvl s : page (log msg lvl s) = page s.
Proof. done. Qed.

Lemma statusText_updateConnectionStatus st s :
  statusText (page (updateConnectionStatus st s)) = statusText (page s).
Proof.
  unfold updateConnectionStatus. cbv zeta. rewrite page_emit.
  destruct (statusDot (page s)); [|done]. rewrite page_set_page.
  by destruct (connectionStatus (page s)) eqn:E; cbn; rewrite ?E.
Qed.

Lemma statusDot_updateConnectionStatus st s :
  statusDot (page (updateConnectionStatus st s)) = None <-> statusDot (page s) = None.
Proof.
  unfold updateConnectionStatus. cbv zeta. rewrite page_emit.
  destruct (statusDot (page s)) eqn:E; [|done]. rewrite page_set_page.
  by destruct (connectionStatus (page s)) eqn:E'; cbn; rewrite ?E'.
Qed.

Lemma connectionStatus_shown st s :
  statusDot (page s) <> None ->
  connectionStatus (page (updateConnectionStatus st s))
  = (fun _ => statusLabel st) <$> connectionStatus (page s).
Proof.
  intros Hdot. rewrite connectionStatus_updateConnectionStatus.
  by destruct (statusDot (page s)).
Qed.

#[export] Hint Rewrite page_log statusText_updateConnectionStatus : proj.

(** ** connect() without a credential *)

(** The state [connect] leaves behind when the API key is missing. *)
Lemma connect_no_key env s :
  truthy (apiKeyInput (page s)) = false ->
  let a := length (contexts s) in
  exists s',
    connect env s = (Normal tt, s')
    /\ trace s' = trace s ++
         [NewAudioContext a; ResumeAudioContext a; StatusUpdate connecting;
          NewWebSocketTransport; ConsoleLog "[ERROR] API key is required";
          StatusUpdate disconnected]
    /\ rtviClient s' = rtviClient s
    /\ clients s' = clients s
    /\ audioContext s' = Some a
    /\ statusText (page s') = (fun _ => "Please enter API key") <$> statusText (page s)
    /\ (statusDot (page s) <> None ->
        connectionStatus (page s') = (fun _ => "Not Connected") <$> connectionStatus (page s)).
Proof.
  intros Hkey a.
  unfold connect, connectTry, resumeAudioContext. rewrite tryCatch_run.
  steps. rewrite Hkey. cbn [negb]. steps. rewrite modify_run.
  eexists. split; [reflexivity|].
  repeat split; autorewrite with proj; try done.
  - by rewrite <- !app_assoc.
  - intros Hdot. rewrite connectionStatus_shown.
    + autorewrite with proj. rewrite connectionStatus_shown.
      * autorewrite with proj. by destruct (connectionStatus (page s)).
      * by autorewrite with proj.
    + autorewrite with proj. rewrite statusDot_updateConnectionStatus.
      by autorewrite with proj.
Qed.

(** C1.  With an empty credential (an empty or missing API key input)
    [connect] constructs no [RTVIClient] and issues no transport call,
    logs the message "API key is required" at level error and shows
    "Please enter API key" in the status line, and the Connection
    Status when it returns is Disconnected; the session handle and the
    store of clients are left as they were and nothing is thrown. *)
Theorem connect_empty_credential_opens_nothing (env : Env) (s : State) :
  truthy (apiKeyInput (page s)) = false ->
  fst (connect env s) = Normal tt
  /\ newClients (effectsSince s (run (connect env) s)) = []
  /\ transportCalls (effectsSince s (run (connect env) s)) = []
  /\ clients (run (connect env) s) = clients s
  /\ rtviClient (run (connect env) s) = rtviClient s
  /\ ConsoleLog "[ERROR] API key is required" ∈ effectsSince s (run (connect env) s)
  /\ statusText (page (run (connect env) s))
     = (fun _ => "Please enter API key") <$> statusText (page s)
  /\ currentStatus (run (connect env) s) = disconnected
  /\ (statusDot (page s) <> None ->
      connectionStatus (page (run (connect env) s))
      = (fun _ => "Not Connected") <$> connectionStatus (page s)).
Proof.
  intros Hkey.
  destruct (connect_no_key env s Hkey) as (s' & E & Htr & Hc & Hcl & _ & Htxt & Hdom).
  unfold run. rewrite E. cbn [fst snd].
  rewrite (effectsSince_app _ _ _ Htr).
  repeat split; try done.
  - apply list_elem_of_In. cbn. tauto.
  - by apply (currentStatus_snoc s s' _ disconnected Htr).
Qed.

(** On a fresh page whose API key input is empty. *)
Lemma connect_empty_credential_opens_nothing_witness :
  currentStatus (run (connect envSilent) (freshApp EmptyString)) = disconnected.
Proof.
  destruct (connect_empty_credential_opens_nothing envSilent (freshApp EmptyString))
    as (_ & _ & _ & _ & _ & _ & _ & H & _); [vm_compute; reflexivity|].
  exact H.
Defined.

(** C3, as the code has it.  With an empty credential the status is
    first set to Connecting and the credential is checked afterwards:
    the run makes exactly the status updates Connecting, Disconnected,
    the error is logged between the two, and no transport call (hence
    no suspension point) lies between them. *)
Theorem connect_empty_credential_statuses (env : Env) (s : State) :
  truthy (apiKeyInput (page s)) = false ->
  statusCalls (effectsSince s (run (connect env) s)) = [connecting; disconnected]
  /\ effectsSince s (run (connect env) s)
     = [NewAudioContext (length (contexts s));
        ResumeAudioContext (length (contexts s));
        StatusUpdate connecting;
        NewWebSocketTransport;
        ConsoleLog "[ERROR] API key is required";
        StatusUpdate disconnected]
  /\ currentStatus (run (connect env) s) = disconnected.
Proof.
  intros Hkey.
  destruct (connect_no_key env s Hkey) as (s' & E & Htr & _).
  unfold run. rewrite E. cbn [snd].
  rewrite (effectsSince_app _ _ _ Htr).
  repeat split; try done.
  by apply (currentStatus_snoc s s' _ disconnected Htr).
Qed.

(** On a fresh page whose API key input is empty. *)
Lemma connect_empty_credential_statuses_witness :
  statusCalls (effectsSince (freshApp EmptyString) (run (connect envSilent) (freshApp EmptyString)))
  = [connecting; disconnected].
Proof.
  destruct (connect_empty_credential_statuses envSilent (freshApp EmptyString))
    as (H & _); [vm_compute; reflexivity|].
  exact H.
Defined.

(** C3 as stated fails: with an empty API key the run does set the
    status to Connecting. *)
Lemma connect_empty_credential_sets_connecting :
  apiKeyInput (page (freshApp EmptyString)) = Some EmptyString
  /\ ~ neverConnecting (freshApp EmptyString) (run (connect envSilent) (freshApp EmptyString)).
Proof.
  split; [done|]. intros H. apply H. vm_compute.
  apply list_elem_of_here.
Qed.

Lemma botAudioEl_updateConnectionStatus st s :
  botAudioEl (page (updateConnectionStatus st s)) = botAudioEl (page s).
Proof.
  unfold updateConnectionStatus. cbv zeta. rewrite page_emit.
  destruct (statusDot (page s)); [|done]. rewrite page_set_page.
  by destruct (connectionStatus (page s)) eqn:E; cbn; rewrite ?E.
Qed.

Lemma botAudioEl_updateStatusText text s :
  botAudioEl (page (updateStatusText text s)) = botAudioEl (page s).
Proof. unfold updateStatusText. by destruct (statusText (page s)). Qed.

#[export] Hint Rewrite botAudioEl_updateConnectionStatus botAudioEl_updateStatusText : proj.

(** ** connect() with a credential: the synchronous part *)

Lemma setupTrackListeners_fresh s l cl :
  rtviClient s = Some (length l) ->
  clients s = l ++ [cl] ->
  rtviClient (setupTrackListeners s) = Some (length l)
  /\ clients (setupTrackListeners s)
     = l ++ [add_listener TrackStoppedEv (add_listener TrackStartedEv cl)]
  /\ trace (setupTrackListeners s)
     = trace s ++ [On (length l) TrackStartedEv; On (length l) TrackStoppedEv]
  /\ audioContext (setupTrackListeners s) = audioContext s
  /\ contexts (setupTrackListeners s) = contexts s
  /\ page (setupTrackListeners s) = page s.
Proof.
  intros Hc Hcl. unfold setupTrackListeners. rewrite Hc. cbv zeta.
  assert (clients (emit (On (length l) TrackStartedEv)
            (update_client (length l) (add_listener TrackStartedEv) s))
          = l ++ [add_listener TrackStartedEv cl]) as E1.
  { rewrite clients_emit, (clients_update_client _ _ _ cl), Hcl.
    - apply insert_snoc_length.
    - rewrite Hcl. apply lookup_snoc_length. }
  repeat split; autorewrite with proj; try done.
  - rewrite (clients_update_client _ _ _ (add_listener TrackStartedEv cl)).
    + rewrite E1. apply insert_snoc_length.
    + rewrite E1. apply lookup_snoc_length.
  - by rewrite <- app_assoc.
Qed.

Lemma RTVIConfig_ext s s' url :
  VITE_WSS_URL s' = VITE_WSS_URL s -> location s' = location s ->
  RTVIConfig s' url = RTVIConfig s url.
Proof. unfold RTVIConfig. by intros -> ->. Qed.

(** Up to the first [await]: a fresh audio context, the status set to
    Connecting, a fresh client with both track listeners, now held by
    the session-handle field. *)
Lemma connect_with_key env s :
  truthy (apiKeyInput (page s)) = true ->
  let c := length (clients s) in
  let a := length (contexts s) in
  exists s1,
    connect env s = tryCatch (openSession env) (connectCatch env) s1
    /\ rtviClient s1 = Some c
    /\ audioContext s1 = Some a
    /\ contexts s1 = contexts s ++ [running]
    /\ clients s1 = clients s ++
         [{| options := configOf s; listeners := [TrackStartedEv; TrackStoppedEv];
             localAudio := None; botAudio := None |}]
    /\ trace s1 = trace s ++
         [NewAudioContext a; ResumeAudioContext a; StatusUpdate connecting;
          NewWebSocketTransport; NewRTVIClient c (configOf s);
          On c TrackStartedEv; On c TrackStoppedEv]
    /\ botAudioEl (page s1) = botAudioEl (page s).
Proof.
  intros Hkey c a.
  unfold connect, connectTry, resumeAudioContext. rewrite tryCatch_run.
  steps. rewrite Hkey. cbn [negb]. steps.
  match goal with
  | |- context [openSession env (setupTrackListeners ?x)] => set (s0 := x)
  end.
  exists (setupTrackListeners s0). split; [done|].
  assert (configOf s = RTVIConfig
            (emit NewWebSocketTransport
               (updateConnectionStatus connecting
                  (emit (ResumeAudioContext (length (contexts s)))
                     (set_contexts
                        (<[length (contexts s):=running]> (contexts s ++ [suspended]))
                        (set_audioContext (Some (length (contexts s)))
                           (emit (NewAudioContext (length (contexts s)))
                              (set_contexts (contexts s ++ [suspended]) s)))))))
            (connectUrl (activeTab s) (default EmptyString (apiKeyInput (page s)))
               (default EmptyString (systemPrompt s)))) as Ecfg.
  { unfold configOf. symmetry. apply RTVIConfig_ext; by autorewrite with proj. }
  destruct (setupTrackListeners_fresh s0 (clients s)
              {| options := configOf s; listeners := []; localAudio := None;
                 botAudio := None |})
    as (H1 & H2 & H3 & H4 & H5 & H6).
  { subst s0. by autorewrite with proj. }
  { subst s0. autorewrite with proj. by rewrite Ecfg. }
  rewrite H1, H2, H3, H4, H5, H6. subst s0. autorewrite with proj.
  repeat split; try done.
  - apply insert_snoc_length.
  - rewrite <- Ecfg. by rewrite <- !app_assoc.
Qed.

(** ** connect() with a credential: the asynchronous part *)

Lemma tail_refl c s : tail c s s.
Proof. split; try done. exists []. by rewrite app_nil_r. Qed.

Lemma quiet_session c e : quietEffect e -> sessionEffect c e.
Proof. by destruct e. Qed.

Lemma session_not_close c d a :
  Forall (sessionEffect c) d -> CloseAudioContext a ∉ d.
Proof.
  intros Hq Hin. rewrite Forall_forall in Hq. by apply Hq in Hin.
Qed.

Lemma session_newClients c d : Forall (sessionEffect c) d -> newClients d = [].
Proof.
  induction 1 as [|e d He _ IH]; [done|]. by destruct e.
Qed.

Lemma tail_frame c s0 s s' : tail c s0 s -> frame s s' -> tail c s0 s'.
Proof.
  intros [? ? ? Hcl ? (d1 & ? & ?)] [? ? ? Hcl' ? ? (d2 & ? & Hq)].
  split; try congruence; [| tauto |].
  - rewrite <- Hcl.
    apply (f_equal (fmap (fun x : RTVIClientOptions * list RTVIEvent * option Track => x.1)))
      in Hcl'.
    by rewrite <- !list_fmap_compose in Hcl'.
  - exists (d1 ++ d2). split; [rewrite app_assoc; congruence|].
    apply Forall_app. split; [done|].
    eapply Forall_impl; [exact Hq|]. apply quiet_session.
Qed.

Lemma tail_emit c s0 s e : sessionEffect c e -> tail c s0 s -> tail c s0 (emit e s).
Proof.
  intros He [? ? ? ? ? (d & Hd & ?)].
  split; autorewrite with proj; try done.
  exists (d ++ [e]). split; [by rewrite Hd, app_assoc|].
  apply Forall_app. by split; [|constructor].
Qed.

Lemma tail_log c s0 s msg lvl : tail c s0 s -> tail c s0 (log msg lvl s).
Proof. intros T. by apply tail_emit. Qed.

Lemma tail_updateConnectionStatus c s0 s st :
  tail c s0 s -> tail c s0 (updateConnectionStatus st s).
Proof. intros T. eapply tail_frame; [done|apply frame_updateConnectionStatus]. Qed.

Lemma tail_updateStatusText c s0 s text :
  tail c s0 s -> tail c s0 (updateStatusText text s).
Proof. intros T. eapply tail_frame; [done|apply frame_updateStatusText]. Qed.

Lemma tail_deliver c s0 s evs : tail c s0 s -> tail c s0 (deliver evs s).
Proof. intros T. eapply tail_frame; [done|apply frame_deliver]. Qed.

Lemma tail_set_localAudio c c' v s0 s :
  tail c s0 s -> tail c s0 (update_client c' (set_localAudio v) s).
Proof.
  intros [? ? ? Hcl ? ?].
  split; autorewrite with proj; try done.
  unfold update_client. destruct (clients s !! c') as [cl|] eqn:E; [|done].
  rewrite clients_set_clients, list_fmap_insert, <- Hcl.
  apply list_insert_id. by rewrite list_lookup_fmap, E.
Qed.

Ltac tail_tac :=
  repeat first
    [ assumption
    | apply tail_refl
    | apply tail_log
    | apply tail_updateConnectionStatus
    | apply tail_updateStatusText
    | apply tail_deliver
    | apply tail_set_localAudio
    | apply tail_emit; [done|] ].

(** The [catch] block of [connect]: it logs the error, sets the status
    to Disconnected, tries to release the client and swallows a second
    failure; the session-handle field is not written. *)
Lemma connectCatch_tail env c e s0 s :
  rtviClient s = Some c -> tail c s0 s ->
  exists s',
    connectCatch env e s = (Normal tt, s')
    /\ tail c s0 s'
    /\ exists post,
         trace s' = trace s ++
           ConsoleLog ("[ERROR] Error connecting: " +:+ message e)
           :: StatusUpdate disconnected :: Call c MDisconnect :: post.
Proof.
  intros Hc T. unfold connectCatch. steps. rewrite Hc.
  rewrite tryCatch_run, await_run. unfold id.
  destruct (frame_trace _ _ (frame_deliver (fired (disconnectResult env))
    (emit (Call c MDisconnect)
       (updateStatusText "Connection failed"
          (updateConnectionStatus disconnected
             (log ("Error connecting: " +:+ message e) error s))))))
    as (d & Hd & _).
  destruct (rejection (disconnectResult env)) as [e2|];
    [rewrite modify_run|]; (eexists; split; [reflexivity|]); (split; [tail_tac|]);
    autorewrite with proj; rewrite Hd; autorewrite with proj;
    rewrite <- !app_assoc; eexists; cbn; reflexivity.
Qed.

Lemma tail_trace_app c s0 s d :
  tail c s0 s -> exists pre, trace (emit d s) = trace s0 ++ pre ++ [d].
Proof.
  intros [_ _ _ _ _ (pre & Hpre & _)]. exists pre.
  by rewrite trace_emit, Hpre, app_assoc.
Qed.

Lemma session_tail env c s1 :
  rtviClient s1 = Some c ->
  exists s',
    tryCatch (openSession env) (connectCatch env) s1 = (Normal tt, s')
    /\ tail c s1 s'
    /\ forall e, connectFailure env = Some e ->
         exists pre post,
           trace s' = trace s1 ++ pre ++
             ConsoleLog ("[ERROR] Error connecting: " +:+ message e)
             :: StatusUpdate disconnected :: Call c MDisconnect :: post.
Proof.
  intros Hc. rewrite tryCatch_run. unfold openSession, connectFailure.
  step. rewrite (bind_thisClient _ _ c) by (by autorewrite with proj).
  cbv beta. rewrite bind_await.
  destruct (rejection (initDevicesResult env)) as [e1|].
  { match goal with
    | |- context [connectCatch env e1 (emit ?d ?x)] =>
        destruct (connectCatch_tail env c e1 s1 (emit d x)) as (s' & E & T & post & Htr);
          [by autorewrite with proj|tail_tac|];
        destruct (tail_trace_app c s1 x d) as (pre & Hpre); [tail_tac|]
    end.
    exists s'. split; [done|]. split; [done|].
    intros e [= <-]. exists (pre ++ [Settled c MInitDevices false]), post.
    by rewrite Htr, Hpre, <- !app_assoc. }
  rewrite (bind_thisClient _ _ c) by (by autorewrite with proj).
  cbv beta. step.
  match goal with
  | |- context [mbind localAudio ?x] => destruct (mbind localAudio x) as [t|]
  end.
  - repeat step. rewrite (bind_thisClient _ _ c) by (by autorewrite with proj).
    cbv beta. rewrite await_run. unfold id.
    destruct (rejection (connectResult env)) as [e2|].
    + match goal with
      | |- context [connectCatch env e2 (emit ?d ?x)] =>
          destruct (connectCatch_tail env c e2 s1 (emit d x)) as (s' & E & T & post & Htr);
            [by autorewrite with proj|tail_tac|];
          destruct (tail_trace_app c s1 x d) as (pre & Hpre); [tail_tac|]
      end.
      exists s'. split; [done|]. split; [done|].
      intros e [= <-]. exists (pre ++ [Settled c MConnect false]), post.
      by rewrite Htr, Hpre, <- !app_assoc.
    + eexists. split; [reflexivity|]. split; [tail_tac|]. by intros e.
  - repeat step. rewrite (bind_thisClient _ _ c) by (by autorewrite with proj).
    cbv beta. rewrite await_run. unfold id.
    destruct (rejection (connectResult env)) as [e2|].
    + match goal with
      | |- context [connectCatch env e2 (emit ?d ?x)] =>
          destruct (connectCatch_tail env c e2 s1 (emit d x)) as (s' & E & T & post & Htr);
            [by autorewrite with proj|tail_tac|];
          destruct (tail_trace_app c s1 x d) as (pre & Hpre); [tail_tac|]
      end.
      exists s'. split; [done|]. split; [done|].
      intros e [= <-]. exists (pre ++ [Settled c MConnect false]), post.
      by rewrite Htr, Hpre, <- !app_assoc.
    + eexists. split; [reflexivity|]. split; [tail_tac|]. by intros e.
Qed.

(** Every run of [connect] with a credential, whatever the transport
    answers. *)
Lemma connect_session env s :
  truthy (apiKeyInput (page s)) = true ->
  let c := length (clients s) in
  let a := length (contexts s) in
  exists s' d,
    connect env s = (Normal tt, s')
    /\ rtviClient s' = Some c
    /\ audioContext s' = Some a
    /\ contexts s' = contexts s ++ [running]
    /\ clientShape <$> clients s'
       = (clientShape <$> clients s) ++ [(configOf s, [TrackStartedEv; TrackStoppedEv])]
    /\ (botAudioEl (page s') = None <-> botAudioEl (page s) = None)
    /\ trace s' = trace s ++
         [NewAudioContext a; ResumeAudioContext a; StatusUpdate connecting;
          NewWebSocketTransport; NewRTVIClient c (configOf s);
          On c TrackStartedEv; On c TrackStoppedEv] ++ d
    /\ Forall (sessionEffect c) d
    /\ forall e, connectFailure env = Some e ->
         exists pre post,
           d = pre ++ ConsoleLog ("[ERROR] Error connecting: " +:+ message e)
                 :: StatusUpdate disconnected :: Call c MDisconnect :: post.
Proof.
  intros Hkey c a.
  destruct (connect_with_key env s Hkey) as (s1 & E & Hc & Ha & Hctx & Hcl & Htr & Hel).
  destruct (session_tail env c s1 Hc) as (s' & E' & [T1 T2 T3 T4 T5 (d & Hd & Hq)] & Hfail).
  exists s', d. rewrite E, E'.
  subst c a.
  split; [done|]. split; [congruence|]. split; [congruence|].
  split; [congruence|]. split; [by rewrite T4, Hcl, fmap_app|].
  split; [rewrite <- Hel; tauto|].
  split; [rewrite Hd, Htr; by rewrite <- app_assoc|].
  split; [done|].
  intros e He. destruct (Hfail e He) as (pre & post & Hpp).
  exists pre, post. rewrite Hd in Hpp. by apply app_inv_head in Hpp.
Qed.

Lemma localAudio_lookup_frame s s' c :
  frame s s' -> (clients s' !! c) ≫= localAudio = (clients s !! c) ≫= localAudio.
Proof.
  intros F. pose proof (frame_clients _ _ F) as H.
  apply (f_equal (fun l => l !! c)) in H. rewrite !list_lookup_fmap in H.
  destruct (clients s' !! c) as [x|], (clients s !! c) as [y|]; simplify_eq/=; try done.
Qed.

Lemma localAudio_deliver evs s c :
  (clients (deliver evs s) !! c) ≫= localAudio = (clients s !! c) ≫= localAudio.
Proof. apply localAudio_lookup_frame, frame_deliver. Qed.

Lemma localAudio_update_client c v s :
  c < length (clients s) ->
  (clients (update_client c (set_localAudio v) s) !! c) ≫= localAudio = v.
Proof.
  intros Hlt. destruct (lookup_lt_is_Some_2 _ _ Hlt) as [cl Hcl].
  rewrite (clients_update_client _ _ _ cl Hcl).
  by rewrite list_lookup_insert_eq.
Qed.

Lemma length_clients_deliver evs s : length (clients (deliver evs s)) = length (clients s).
Proof. apply length_clients_frame, frame_deliver. Qed.

Lemma length_clients_update_client c f s :
  length (clients (update_client c f s)) = length (clients s).
Proof.
  unfold update_client. destruct (clients s !! c); [|done].
  by rewrite clients_set_clients, length_insert.
Qed.

#[export] Hint Rewrite length_clients_deliver length_clients_update_client
  localAudio_deliver : proj.

(** The successful run of the asynchronous part: both awaited calls
    resolve; the capture track [initDevices] acquired is disabled, and
    the run ends with the callbacks of the session open delivered. *)
Lemma openSession_ok env c s1 :
  rtviClient s1 = Some c ->
  c < length (clients s1) ->
  connectFailure env = None ->
  exists s' x,
    tryCatch (openSession env) (connectCatch env) s1 = (Normal tt, s')
    /\ (clients s' !! c) ≫= localAudio = set_enabled false <$> mic env
    /\ s' = emit (Settled c MConnect true) (deliver (fired (connectResult env)) x)
    /\ tail c s1 x.
Proof.
  intros Hc Hlt Hok. unfold connectFailure in Hok.
  destruct (rejection (initDevicesResult env)) as [e1|] eqn:E1; [done|].
  rewrite tryCatch_run. unfold openSession.
  step. rewrite (bind_thisClient _ _ c) by (by autorewrite with proj).
  cbv beta. rewrite bind_await, E1.
  rewrite (bind_thisClient _ _ c) by (by autorewrite with proj).
  cbv beta. step. autorewrite with proj.
  rewrite localAudio_update_client by (by autorewrite with proj).
  destruct (mic env) as [t|].
  - repeat step. rewrite (bind_thisClient _ _ c) by (by autorewrite with proj).
    cbv beta. rewrite await_run, Hok. unfold id.
    eexists. eexists. split; [reflexivity|]. split; [|split; [reflexivity|tail_tac]].
    autorewrite with proj.
    rewrite localAudio_update_client; [done|]. by autorewrite with proj.
  - repeat step. rewrite (bind_thisClient _ _ c) by (by autorewrite with proj).
    cbv beta. rewrite await_run, Hok. unfold id.
    eexists. eexists. split; [reflexivity|]. split; [|split; [reflexivity|tail_tac]].
    autorewrite with proj.
    rewrite localAudio_update_client; [done|]. by autorewrite with proj.
Qed.

(** ** disconnect() and the toggle *)

Lemma deliver_effects evs s :
  exists d,
    trace (deliver evs s) = trace s ++ d
    /\ Forall quietEffect d
    /\ statusCalls d = statusOfFired (length (clients s)) evs.
Proof.
  destruct (frame_trace _ _ (frame_deliver evs s)) as (d & Hd & Hq).
  exists d. split; [done|]. split; [done|].
  pose proof (statusCalls_deliver evs s) as H.
  rewrite Hd, statusCalls_app in H. by apply app_inv_head in H.
Qed.

Lemma statusOfFired_not_connecting n evs : connecting ∉ statusOfFired n evs.
Proof.
  unfold statusOfFired. induction evs as [|ev evs IH]; cbn; [by apply not_elem_of_nil|].
  rewrite elem_of_app. intros [H|H]; [|done].
  destruct ev as [c []|]; cbn in H; try case_bool_decide;
    repeat (apply elem_of_cons in H as [H|H]; [done|]); by apply elem_of_nil in H.
Qed.

(** What [disconnect] does when the session-handle field holds client
    [c]: the release is awaited; on success the field and the audio
    context are cleared, on failure the error is logged and both are
    kept. *)
Lemma disconnect_with_handle env s c :
  rtviClient s = Some c ->
  exists s' d,
    disconnect env s = (Normal tt, s')
    /\ Forall quietEffect d
    /\ statusCalls d = statusOfFired (length (clients s)) (fired (disconnectResult env))
    /\ length (clients s') = length (clients s)
    /\ match rejection (disconnectResult env) with
       | None =>
           rtviClient s' = None
           /\ audioContext s' = None
           /\ contexts s'
              = match audioContext s with
                | Some a => <[a := closed]> (contexts s)
                | None => contexts s
                end
           /\ trace s' = trace s ++ Call c MDisconnect :: d ++
                Settled c MDisconnect true
                :: match audioContext s with
                   | Some a => [CloseAudioContext a]
                   | None => []
                   end
       | Some e =>
           rtviClient s' = Some c
           /\ audioContext s' = audioContext s
           /\ contexts s' = contexts s
           /\ trace s' = trace s ++ Call c MDisconnect :: d ++
                [Settled c MDisconnect false;
                 ConsoleLog ("[ERROR] Error disconnecting: " +:+ message e)]
       end.
Proof.
  intros Hc. unfold disconnect. step. rewrite Hc.
  rewrite tryCatch_run, bind_await. unfold id.
  destruct (deliver_effects (fired (disconnectResult env)) (emit (Call c MDisconnect) s))
    as (d & Hd & Hq & Hst).
  rewrite clients_emit in Hst. rewrite trace_emit in Hd.
  destruct (rejection (disconnectResult env)) as [e|].
  - rewrite modify_run. eexists. exists d. split; [reflexivity|].
    autorewrite with proj. rewrite Hd.
    split_and!; try done. by rewrite <- !app_assoc.
  - steps. destruct (audioContext s) as [a|] eqn:Ea.
    + unfold closeAudioContext. steps. rewrite modify_run.
      eexists. exists d. split; [reflexivity|].
      autorewrite with proj. rewrite Hd.
      split_and!; try done. by rewrite <- !app_assoc.
    + eexists. exists d. split; [reflexivity|].
      autorewrite with proj. rewrite Hd, Ea.
      split_and!; try done. by rewrite <- !app_assoc.
Qed.

Lemma currentStatus_unchanged s s' d :
  trace s' = trace s ++ d -> statusCalls d = [] -> currentStatus s' = currentStatus s.
Proof.
  unfold currentStatus. intros -> Hd. by rewrite statusCalls_app, Hd, app_nil_r.
Qed.

Lemma toggleConnection_with_handle env s c :
  rtviClient s = Some c -> toggleConnection env s = disconnect env s.
Proof. intros Hc. unfold toggleConnection. step. by rewrite Hc. Qed.

Lemma run_toggleConnection_with_handle env s c :
  rtviClient s = Some c -> run (toggleConnection env) s = run (disconnect env) s.
Proof. intros Hc. unfold run. by rewrite (toggleConnection_with_handle env s c Hc). Qed.

(** The effects of [disconnect] from a state with a session handle. *)
Lemma disconnect_effects env s c :
  rtviClient s = Some c ->
  exists d tl,
    effectsSince s (run (disconnect env) s) = Call c MDisconnect :: d ++ tl
    /\ Forall quietEffect d
    /\ statusCalls d = statusOfFired (length (clients s)) (fired (disconnectResult env))
    /\ statusCalls tl = [] /\ newClients tl = [] /\ transportCalls tl = [].
Proof.
  intros Hc.
  destruct (disconnect_with_handle env s c Hc) as (s' & d & E & Hq & Hst & _ & H).
  unfold run. rewrite E. cbn [snd].
  destruct (rejection (disconnectResult env)) as [e|].
  - destruct H as (_ & _ & _ & Htr). eexists d, _.
    rewrite (effectsSince_app _ _ _ Htr). by split_and!.
  - destruct H as (_ & _ & _ & Htr). eexists d, _.
    rewrite (effectsSince_app _ _ _ Htr). split_and!; try done;
      by destruct (audioContext s).
Qed.




(** C4, as the code has it.  With a session handle present
    [disconnect] awaits the release and never throws.  If the release
    resolves, the session handle is cleared and the audio context, if
    any, is closed and cleared.  If the release throws, the failure is
    only logged ("Error disconnecting: ...") and the session handle,
    the audio context and its state are left as they were.
    [disconnect] makes no status update of its own: the status updates
    of the call are exactly those of the [onConnected] /
    [onDisconnected] callbacks the transport fires during the release,
    so without such a callback the Connection Status stays what it
    was. *)
Theorem disconnect_release_outcomes (env : Env) (s : State) (c : nat) :
  rtviClient s = Some c ->
  fst (disconnect env s) = Normal tt
  /\ (rejection (disconnectResult env) = None ->
      rtviClient (run (disconnect env) s) = None
      /\ audioContext (run (disconnect env) s) = None
      /\ forall a, audioContext s = Some a ->
           CloseAudioContext a ∈ effectsSince s (run (disconnect env) s)
           /\ contexts (run (disconnect env) s) = <[a := closed]> (contexts s))
  /\ (forall e, rejection (disconnectResult env) = Some e ->
      rtviClient (run (disconnect env) s) = Some c
      /\ audioContext (run (disconnect env) s) = audioContext s
      /\ contexts (run (disconnect env) s) = contexts s
      /\ ConsoleLog ("[ERROR] Error disconnecting: " +:+ message e)
           ∈ effectsSince s (run (disconnect env) s))
  /\ statusCalls (effectsSince s (run (disconnect env) s))
     = statusOfFired (length (clients s)) (fired (disconnectResult env))
  /\ (statusOfFired (length (clients s)) (fired (disconnectResult env)) = [] ->
      currentStatus (run (disconnect env) s) = currentStatus s).
Proof.
  intros Hc.
  destruct (disconnect_with_handle env s c Hc) as (s' & d & E & Hq & Hst & _ & H).
  unfold run. rewrite E. cbn [fst snd].
  assert (exists tl, trace s' = trace s ++ Call c MDisconnect :: d ++ tl
                     /\ statusCalls tl = []) as (tl & Htr & Htl).
  { destruct (rejection (disconnectResult env)) as [e|];
      destruct H as (_ & _ & _ & Htr); eexists; (split; [exact Htr|]);
      [done|by destruct (audioContext s)]. }
  assert (statusCalls (Call c MDisconnect :: d ++ tl)
          = statusOfFired (length (clients s)) (fired (disconnectResult env))) as Hs.
  { cbn. by rewrite statusCalls_app, Htl, app_nil_r. }
  split; [done|]. split; [|split; [|split]].
  - intros Hok. rewrite Hok in H. destruct H as (H1 & H2 & H3 & H4).
    split; [done|]. split; [done|]. intros a Ha. rewrite Ha in H3, H4.
    split; [|done]. rewrite (effectsSince_app _ _ _ H4).
    apply list_elem_of_In, in_cons, in_app_iff. right. cbn. tauto.
  - intros e He. rewrite He in H. destruct H as (H1 & H2 & H3 & H4).
    split_and!; try done. rewrite (effectsSince_app _ _ _ H4).
    apply list_elem_of_In, in_cons, in_app_iff. right. cbn. tauto.
  - by rewrite (effectsSince_app _ _ _ Htr).
  - intros Hnone. apply (currentStatus_unchanged s s' _ Htr). by rewrite Hs.
Qed.

(** From the Connected state: a release that resolves clears the
    handle, a release that throws keeps it. *)
Lemma disconnect_release_outcomes_witness :
  rtviClient (run (disconnect (envOk 0)) connectedApp) = None
  /\ rtviClient (run (disconnect envStuck) connectedApp) = Some 0.
Proof.
  destruct (disconnect_release_outcomes (envOk 0) connectedApp 0)
    as (_ & H & _); [vm_compute; reflexivity|].
  destruct H as (H & _); [vm_compute; reflexivity|].
  destruct (disconnect_release_outcomes envStuck connectedApp 0)
    as (_ & _ & H' & _); [vm_compute; reflexivity|].
  destruct (H' {| errName := "Error"; message := "already closed" |})
    as (H'' & _); [vm_compute; reflexivity|].
  exact (conj H H'').
Defined.

(** C4 as stated fails when the release throws: the session handle is
    kept and the Connection Status stays Connected. *)
Lemma disconnect_failure_keeps_handle :
  rtviClient connectedApp = Some 0
  /\ rejection (disconnectResult envStuck) <> None
  /\ rtviClient (run (disconnect envStuck) connectedApp) = Some 0
  /\ currentStatus (run (disconnect envStuck) connectedApp) = connected
  /\ ~ disconnectClears envStuck connectedApp.
Proof.
  split; [by vm_compute|]. split; [done|].
  split; [by vm_compute|]. split; [by vm_compute|].
  intros [H _]. vm_compute in H. discriminate H.
Qed.



(** ** The connection URL *)

Lemma connectUrl_live tab key instr :
  tab <> "tts-llm-stt" ->
  connectUrl tab key instr
  = "/connect?bot_type=" +:+ tab +:+ "&api_key=" +:+ key
    +:+ "&model=gemini-live-2.5-flash-preview&voice=Custom-Female&language=hi-IN&tts=true&tts_pace=1.0"
    +:+ (if String.eqb instr EmptyString then EmptyString
         else "&system_instruction=" +:+ encodeURIComponent instr).
Proof.
  intros Htab. unfold connectUrl.
  apply String.eqb_neq in Htab. rewrite Htab. cbv zeta.
  destruct (String.eqb instr EmptyString); cbn [negb]; rewrite !append_assoc; repeat f_equal.
Qed.

Lemma hexDigit_unescaped k : k < 16 -> uriUnescaped (hexDigit k) = true.
Proof.
  intros Hk. do 16 (destruct k as [|k]; [reflexivity|]). lia.
Qed.

Lemma nat_of_ascii_bound c : nat_of_ascii c < 256.
Proof. unfold nat_of_ascii. pose proof (N_ascii_bounded c). lia. Qed.

(** Every byte of the encoding is an unescaped character or [%]. *)
Lemma encodeURIComponent_safe s :
  Forall (fun c => uriUnescaped c = true \/ c = "%"%char)
    (list_ascii_of_string (encodeURIComponent s)).
Proof.
  induction s as [|c s IH]; cbn [encodeURIComponent list_ascii_of_string]; [constructor|].
  destruct (uriUnescaped c) eqn:E; cbn [list_ascii_of_string].
  - constructor; [by left|done].
  - pose proof (nat_of_ascii_bound c) as Hb.
    constructor; [by right|].
    constructor; [left; apply hexDigit_unescaped, Nat.Div0.div_lt_upper_bound; lia|].
    constructor; [left; apply hexDigit_unescaped, Nat.mod_upper_bound; lia|done].
Qed.

Lemma connect_constructs_client env s :
  truthy (apiKeyInput (page s)) = true ->
  NewRTVIClient (length (clients s)) (configOf s) ∈ effectsSince s (run (connect env) s).
Proof.
  intros Hkey.
  destruct (connect_session env s Hkey) as (s' & d & E & _ & _ & _ & _ & _ & Htr & _).
  assert (run (connect env) s = s') as -> by (unfold run; by rewrite E).
  rewrite (effectsSince_app _ _ _ Htr).
  apply list_elem_of_In, in_app_iff. left. cbn. tauto.
Qed.

Lemma falsy_default (v : option string) : truthy v = false -> default EmptyString v = EmptyString.
Proof.
  destruct v as [x|]; [|done]. cbn. intros H.
  apply negb_false_iff, String.eqb_eq in H. by subst.
Qed.

(** C5.  For the Composite variant (bot type [tts-llm-stt]) with the
    credential [abc123] and no instruction text, the connect endpoint
    handed to the session object is [/connect?] followed by exactly
    the seven parameters of the claim, in that order, and it has no
    [system_instruction] parameter. *)
Theorem composite_descriptor (env : Env) (s : State) :
  activeTab s = "tts-llm-stt" ->
  apiKeyInput (page s) = Some "abc123" ->
  truthy (systemPrompt s) = false ->
  connectEndpoint (configOf s)
  = "/connect?" +:+
    "bot_type=tts-llm-stt&api_key=abc123&tts_voice=en-US-Chirp3-HD-Aoede&tts_pace=1.0&llm_model=gemini-2.5-flash-lite-preview-06-17&stt_model=chirp_3&stt_language=en-IN"
  /\ queryParams (connectEndpoint (configOf s))
     = [("bot_type", "tts-llm-stt"); ("api_key", "abc123");
        ("tts_voice", "en-US-Chirp3-HD-Aoede"); ("tts_pace", "1.0");
        ("llm_model", "gemini-2.5-flash-lite-preview-06-17");
        ("stt_model", "chirp_3"); ("stt_language", "en-IN")]
  /\ includes "system_instruction" (connectEndpoint (configOf s)) = false
  /\ NewRTVIClient (length (clients s)) (configOf s)
       ∈ effectsSince s (run (connect env) s).
Proof.
  intros Htab Hkey Hprompt.
  assert (connectEndpoint (configOf s)
          = connectUrl "tts-llm-stt" "abc123" EmptyString) as ->.
  { unfold configOf, RTVIConfig. cbn [connectEndpoint].
    by rewrite Htab, Hkey, (falsy_default _ Hprompt). }
  split; [by vm_compute|]. split; [by vm_compute|]. split; [by vm_compute|].
  apply connect_constructs_client. by rewrite Hkey.
Qed.

(** Scenario B on a fresh page. *)
Lemma composite_descriptor_witness :
  queryParams (connectEndpoint (configOf (freshApp "abc123")))
  = [("bot_type", "tts-llm-stt"); ("api_key", "abc123");
     ("tts_voice", "en-US-Chirp3-HD-Aoede"); ("tts_pace", "1.0");
     ("llm_model", "gemini-2.5-flash-lite-preview-06-17");
     ("stt_model", "chirp_3"); ("stt_language", "en-IN")].
Proof.
  destruct (composite_descriptor envSilent (freshApp "abc123"))
    as (_ & H & _); [reflexivity|reflexivity|reflexivity|].
  exact H.
Defined.

(** C6.  For the Direct-live variant (any bot type other than
    [tts-llm-stt]) with the credential [abc123] and the instruction
    text [Be concise], the connect endpoint handed to the session
    object ends with the six parameters of the claim, the instruction
    text being percent-encoded as [Be%20concise].  In general the
    instruction text is passed through [encodeURIComponent], whose
    output consists of unescaped characters and [%] only. *)
Theorem live_descriptor (env : Env) (s : State) :
  activeTab s <> "tts-llm-stt" ->
  apiKeyInput (page s) = Some "abc123" ->
  systemPrompt s = Some "Be concise" ->
  connectEndpoint (configOf s)
  = "/connect?bot_type=" +:+ activeTab s +:+ "&api_key=abc123&" +:+
    "model=gemini-live-2.5-flash-preview&voice=Custom-Female&language=hi-IN&tts=true&tts_pace=1.0&system_instruction=Be%20concise"
  /\ encodeURIComponent "Be concise" = "Be%20concise"
  /\ NewRTVIClient (length (clients s)) (configOf s)
       ∈ effectsSince s (run (connect env) s)
  /\ (forall instr,
        instr <> EmptyString ->
        connectUrl (activeTab s) "abc123" instr
        = "/connect?bot_type=" +:+ activeTab s +:+ "&api_key=abc123&" +:+
          "model=gemini-live-2.5-flash-preview&voice=Custom-Female&language=hi-IN&tts=true&tts_pace=1.0"
          +:+ "&system_instruction=" +:+ encodeURIComponent instr
        /\ Forall (fun c => uriUnescaped c = true \/ c = "%"%char)
             (list_ascii_of_string (encodeURIComponent instr))).
Proof.
  intros Htab Hkey Hprompt.
  split.
  { unfold configOf, RTVIConfig. cbn [connectEndpoint].
    rewrite Hkey, Hprompt. cbn [default].
    rewrite (connectUrl_live _ _ _ Htab).
    change (String.eqb "Be concise" EmptyString) with false. cbv iota.
    by do 2 f_equal. }
  split; [by vm_compute|].
  split; [apply connect_constructs_client; by rewrite Hkey|].
  intros instr Hne. split; [|apply encodeURIComponent_safe].
  rewrite (connectUrl_live _ _ _ Htab).
  apply String.eqb_neq in Hne. rewrite Hne.
  by do 2 f_equal.
Qed.

(** Scenario C end to end: the instruction text is loaded, the
    Direct-live radio button is checked, the key is typed in. *)
Lemma live_descriptor_witness :
  connectEndpoint (configOf
    (loadDefaultConfiguration (inl (Some "Be concise"))
       (selectBotType "gemini-live" true (freshApp "abc123"))))
  = "/connect?bot_type=gemini-live&api_key=abc123&model=gemini-live-2.5-flash-preview&voice=Custom-Female&language=hi-IN&tts=true&tts_pace=1.0&system_instruction=Be%20concise".
Proof.
  destruct (live_descriptor envSilent
              (loadDefaultConfiguration (inl (Some "Be concise"))
                 (selectBotType "gemini-live" true (freshApp "abc123"))))
    as (H & _); [discriminate|reflexivity|reflexivity|].
  exact H.
Defined.

(** ** Track events *)

Lemma boundTrack_updateStatusText text s :
  boundTrack (updateStatusText text s) = boundTrack s.
Proof. unfold boundTrack. by rewrite botAudioEl_updateStatusText. Qed.

Lemma boundTrack_setupAudioTrack t s :
  botAudioEl (page s) <> None -> boundTrack (setupAudioTrack t s) = Some [t].
Proof.
  intros Hel. unfold boundTrack, setupAudioTrack. cbv zeta. rewrite page_log.
  by destruct (botAudioEl (page s)).
Qed.

Lemma onTrackStarted_binds t p s :
  nonLocalAudio t p = true ->
  botAudioEl (page s) <> None ->
  boundTrack (onTrackStarted t p s) = Some [t].
Proof.
  intros Hnl Hel. unfold onTrackStarted. rewrite Hnl.
  by rewrite boundTrack_updateStatusText, boundTrack_setupAudioTrack.
Qed.

Lemma fire_trackStarted s c cl t p :
  clients s !! c = Some cl ->
  listeners cl = [TrackStartedEv; TrackStoppedEv] ->
  fire (FromClient c (TrackStarted t p)) s = onTrackStarted t p s.
Proof. intros Hc Hl. cbn. rewrite Hc. cbn. unfold attached. by rewrite Hl. Qed.

Lemma fire_trackStopped s c cl t p :
  clients s !! c = Some cl ->
  listeners cl = [TrackStartedEv; TrackStoppedEv] ->
  fire (FromClient c (TrackStopped t p)) s = onTrackStopped t p s.
Proof. intros Hc Hl. cbn. rewrite Hc. cbn. unfold attached. by rewrite Hl. Qed.

(** C9.  A track-started event of a client with the listener attached,
    carrying a non-local audio track, makes that track the source
    bound to the audio element of the page, whatever was bound before
    (the page must have its [#bot-audio] element: without it
    [setupAudioTrack] only logs).  A track-stopped event carrying a
    non-local audio track makes no status update and adds nothing to
    the trace: it sets the status line to "Ready" and changes nothing
    else. *)
Theorem track_events (s : State) (c : nat) (cl : RTVIClient)
    (t : Track) (p : option Participant) :
  clients s !! c = Some cl ->
  listeners cl = [TrackStartedEv; TrackStoppedEv] ->
  nonLocalAudio t p = true ->
  (botAudioEl (page s) <> None ->
   boundTrack (fire (FromClient c (TrackStarted t p)) s) = Some [t])
  /\ fire (FromClient c (TrackStopped t p)) s = updateStatusText "Ready" s
  /\ trace (fire (FromClient c (TrackStopped t p)) s) = trace s
  /\ currentStatus (fire (FromClient c (TrackStopped t p)) s) = currentStatus s
  /\ connectionStatus (page (fire (FromClient c (TrackStopped t p)) s))
     = connectionStatus (page s)
  /\ statusDot (page (fire (FromClient c (TrackStopped t p)) s)) = statusDot (page s)
  /\ statusText (page (fire (FromClient c (TrackStopped t p)) s))
     = (fun _ => "Ready") <$> statusText (page s)
  /\ rtviClient (fire (FromClient c (TrackStopped t p)) s) = rtviClient s
  /\ clients (fire (FromClient c (TrackStopped t p)) s) = clients s
  /\ boundTrack (fire (FromClient c (TrackStopped t p)) s) = boundTrack s.
Proof.
  intros Hc Hl Hnl.
  rewrite (fire_trackStarted s c cl t p Hc Hl), (fire_trackStopped s c cl t p Hc Hl).
  split; [by apply onTrackStarted_binds|].
  unfold onTrackStopped. rewrite Hnl.
  unfold currentStatus. autorewrite with proj.
  by rewrite boundTrack_updateStatusText.
Qed.

(** On the Connected state, for a remote audio track without
    participant descriptor. *)
Lemma track_events_witness :
  boundTrack (fire (FromClient 0 (TrackStarted exampleBot None)) connectedApp)
  = Some [exampleBot]
  /\ currentStatus (fire (FromClient 0 (TrackStopped exampleBot None)) connectedApp)
     = connected.
Proof.
  destruct (track_events connectedApp 0
              {| options := configOf (freshApp "abc123");
                 listeners := [TrackStartedEv; TrackStoppedEv];
                 localAudio := Some (set_enabled false exampleMic);
                 botAudio := None |}
              exampleBot None)
    as (H1 & _ & _ & H2 & _); [reflexivity|reflexivity|reflexivity|].
  split; [apply H1; discriminate|].
  exact (eq_trans H2 (eq_refl connected)).
Defined.

(** ** Order of subscription and session open *)

Lemma app_split_after {A} (P d pre post : list A) (e : A) :
  P ++ d = pre ++ e :: post -> e ∉ P ->
  exists pre', pre = P ++ pre' /\ d = pre' ++ e :: post.
Proof.
  revert pre. induction P as [|x P IH]; intros pre Heq Hnot.
  - by exists pre.
  - destruct pre as [|y pre]; cbn in Heq; simplify_eq.
    + exfalso. apply Hnot, list_elem_of_here.
    + destruct (IH pre) as (pre' & -> & ->); [done| |by exists pre'].
      intros Hin. by apply Hnot, list_elem_of_further.
Qed.

Lemma lookup_shape (l l' : list RTVIClient) c cl' :
  clientShape <$> l = clientShape <$> l' ->
  l' !! c = Some cl' ->
  exists cl, l !! c = Some cl /\ listeners cl = listeners cl' /\ options cl = options cl'.
Proof.
  intros H Hc. apply (f_equal (fun x => x !! c)) in H.
  rewrite !list_lookup_fmap, Hc in H.
  destruct (l !! c) as [cl|]; [|done]. exists cl.
  cbn in H. unfold clientShape in H. by simplify_eq.
Qed.

(** C7.  In every run of [connect], an effect that issues or settles
    the session open [client.connect()] of a client [c] is preceded,
    in the same run, by the attachment of the track-started and the
    track-stopped listener to [c], which is the client constructed by
    this run; the listeners are still attached when the run ends.  A
    track-started event the transport fires while the open is awaited
    is therefore handled: when it is the last callback of a
    successful open and carries a non-local audio track, that track is
    the bound playback source when [connect] returns (on a page with
    its [#bot-audio] element). *)
Theorem listeners_before_session_open (env : Env) (s : State) :
  (forall pre post c e,
     effectsSince s (run (connect env) s) = pre ++ e :: post ->
     e = Call c MConnect \/ (exists ok, e = Settled c MConnect ok) ->
     c = length (clients s)
     /\ On c TrackStartedEv ∈ pre /\ On c TrackStoppedEv ∈ pre)
  /\ (truthy (apiKeyInput (page s)) = true ->
      exists cl,
        clients (run (connect env) s) !! length (clients s) = Some cl
        /\ listeners cl = [TrackStartedEv; TrackStoppedEv])
  /\ (forall evs t p,
        truthy (apiKeyInput (page s)) = true ->
        connectFailure env = None ->
        fired (connectResult env)
        = evs ++ [FromClient (length (clients s)) (TrackStarted t p)] ->
        nonLocalAudio t p = true ->
        botAudioEl (page s) <> None ->
        boundTrack (run (connect env) s) = Some [t]).
Proof.
  split; [|split].
  - intros pre post c e Heff He.
    destruct (truthy (apiKeyInput (page s))) eqn:Hkey.
    + destruct (connect_session env s Hkey)
        as (s' & d & E & _ & _ & _ & _ & _ & Htr & Hq & _).
      assert (run (connect env) s = s') as Hrun by (unfold run; by rewrite E).
      rewrite Hrun, (effectsSince_app _ _ _ Htr) in Heff.
      apply app_split_after in Heff as (pre' & -> & Hd).
      * assert (sessionEffect (length (clients s)) e) as Hs.
        { rewrite Forall_forall in Hq. apply Hq. rewrite Hd.
          apply elem_of_app. right. apply list_elem_of_here. }
        assert (c = length (clients s)) as ->
          by (destruct He as [->|[ok ->]]; exact Hs).
        split; [done|].
        split; apply elem_of_app; left; apply list_elem_of_In; cbn; tauto.
      * intros Hin. apply list_elem_of_In in Hin. cbn in Hin.
        destruct He as [->|[ok ->]];
          repeat (destruct Hin as [Hin|Hin]; [discriminate Hin|]); done.
    + destruct (connect_no_key env s Hkey) as (s' & E & Htr & _).
      assert (run (connect env) s = s') as Hrun by (unfold run; by rewrite E).
      rewrite Hrun, (effectsSince_app _ _ _ Htr) in Heff.
      assert (e ∈ pre ++ e :: post) as Hin
        by (apply elem_of_app; right; apply list_elem_of_here).
      rewrite <- Heff in Hin. apply list_elem_of_In in Hin. cbn in Hin.
      destruct He as [->|[ok ->]];
        repeat (destruct Hin as [Hin|Hin]; [discriminate Hin|]); done.
  - intros Hkey.
    destruct (connect_session env s Hkey)
      as (s' & d & E & _ & _ & _ & Hsh & _).
    assert (run (connect env) s = s') as -> by (unfold run; by rewrite E).
    apply (f_equal (fun x => x !! length (clients s))) in Hsh.
    rewrite <- (length_fmap clientShape (clients s)) in Hsh at 2.
    rewrite lookup_snoc_length, list_lookup_fmap in Hsh.
    destruct (clients s' !! length (clients s)) as [cl|]; [|done].
    exists cl. cbn in Hsh. unfold clientShape in Hsh. by simplify_eq.
  - intros evs t p Hkey Hok Hfired Hnl Hel.
    destruct (connect_with_key env s Hkey)
      as (s1 & E & Hc & _ & _ & Hcl & _ & Hel1).
    destruct (openSession_ok env _ s1 Hc) as (s' & x & E' & _ & -> & T); [|done|].
    { rewrite Hcl, length_app. cbn. lia. }
    assert (run (connect env) s
            = emit (Settled (length (clients s)) MConnect true)
                (deliver (fired (connectResult env)) x)) as ->
      by (unfold run; by rewrite E, E').
    unfold boundTrack. rewrite page_emit, Hfired, deliver_snoc.
    fold (boundTrack (fire (FromClient (length (clients s)) (TrackStarted t p))
                        (deliver evs x))).
    pose proof (tail_deliver _ _ _ evs T) as [_ _ _ Tsh Tel _].
    destruct (lookup_shape _ _ (length (clients s))
                {| options := configOf s; listeners := [TrackStartedEv; TrackStoppedEv];
                   localAudio := None; botAudio := None |} Tsh) as (cl & Hlk & Hl & _).
    { rewrite Hcl. apply lookup_snoc_length. }
    rewrite (fire_trackStarted _ _ cl t p Hlk Hl).
    apply onTrackStarted_binds; [done|]. by rewrite Tel, Hel1.
Qed.

(** On a fresh page: the subscription precedes the open, and a track
    started during the open ends up bound. *)
Lemma listeners_before_session_open_witness :
  On 0 TrackStartedEv
    ∈ [NewAudioContext 0; ResumeAudioContext 0; StatusUpdate connecting;
       NewWebSocketTransport; NewRTVIClient 0 (configOf (freshApp "abc123"));
       On 0 TrackStartedEv; On 0 TrackStoppedEv;
       ConsoleLog "[INFO] Initializing devices..."; Call 0 MInitDevices;
       Settled 0 MInitDevices true; ConsoleLog "[INFO] Microphone muted by default";
       ConsoleLog "[INFO] Connecting to bot..."]
  /\ boundTrack
       (run (connect
          {| mic := Some exampleMic; initDevicesResult := silent;
             connectResult :=
               {| fired := [FromClient 0 OnConnected;
                            FromClient 0 (TrackStarted exampleBot None)];
                  rejection := None |};
             disconnectResult := silent |})
          (freshApp "abc123"))
     = Some [exampleBot].
Proof.
  split.
  - destruct (listeners_before_session_open (envOk 0) (freshApp "abc123")) as (H & _).
    destruct (H [NewAudioContext 0; ResumeAudioContext 0; StatusUpdate connecting;
                 NewWebSocketTransport; NewRTVIClient 0 (configOf (freshApp "abc123"));
                 On 0 TrackStartedEv; On 0 TrackStoppedEv;
                 ConsoleLog "[INFO] Initializing devices..."; Call 0 MInitDevices;
                 Settled 0 MInitDevices true;
                 ConsoleLog "[INFO] Microphone muted by default";
                 ConsoleLog "[INFO] Connecting to bot..."]
                [StatusUpdate connected; Settled 0 MConnect true]
                0 (Call 0 MConnect))
      as (_ & H1 & _); [vm_compute; reflexivity|by left|].
    exact H1.
  - destruct (listeners_before_session_open
                {| mic := Some exampleMic; initDevicesResult := silent;
                   connectResult :=
                     {| fired := [FromClient 0 OnConnected;
                                  FromClient 0 (TrackStarted exampleBot None)];
                        rejection := None |};
                   disconnectResult := silent |}
                (freshApp "abc123")) as (_ & _ & H).
    apply (H [FromClient 0 OnConnected] exampleBot None);
      [vm_compute; reflexivity|reflexivity|reflexivity|reflexivity|done].
Defined.

(** ** The microphone *)

Lemma showMicState_frame b s : frame s (showMicState b s).
Proof.
  unfold showMicState. destruct (micButton (page s)); [|apply frame_refl].
  destruct (negb b);
    (eapply frame_trans; [apply frame_set_micButton|apply frame_updateStatusText]).
Qed.

Lemma showMicState_same b s :
  clients (showMicState b s) = clients s
  /\ trace (showMicState b s) = trace s
  /\ connectionStatus (page (showMicState b s)) = connectionStatus (page s)
  /\ statusDot (page (showMicState b s)) = statusDot (page s).
Proof.
  unfold showMicState. destruct (micButton (page s)); [|done].
  destruct (negb b); by autorewrite with proj.
Qed.

Lemma toggleMicrophone_no_client s :
  rtviClient s = None ->
  toggleMicrophone s = emit (ConsoleLog "[WARNING] Please connect first") s.
Proof. intros Hc. unfold toggleMicrophone. by rewrite Hc. Qed.

Lemma toggleMicrophone_with_client s c :
  rtviClient s = Some c ->
  (clients (toggleMicrophone s) !! c) ≫= localAudio
  = flipEnabled <$> ((clients s !! c) ≫= localAudio)
  /\ (forall c', c' <> c -> clients (toggleMicrophone s) !! c' = clients s !! c')
  /\ statusCalls (effectsSince s (toggleMicrophone s)) = []
  /\ currentStatus (toggleMicrophone s) = currentStatus s
  /\ connectionStatus (page (toggleMicrophone s)) = connectionStatus (page s)
  /\ statusDot (page (toggleMicrophone s)) = statusDot (page s)
  /\ rtviClient (toggleMicrophone s) = Some c
  /\ audioContext (toggleMicrophone s) = audioContext s.
Proof.
  intros Hc. unfold toggleMicrophone. rewrite Hc.
  destruct (clients s !! c) as [cl|] eqn:Hcl.
  2:{ cbn. unfold effectsSince, currentStatus. rewrite drop_all. by rewrite Hcl. }
  destruct (localAudio cl) as [t|] eqn:Ht.
  2:{ cbn. unfold effectsSince, currentStatus. rewrite drop_all, Hcl. cbn.
      by rewrite Ht. }
  cbv zeta.
  match goal with
  | |- context [showMicState ?b ?x] =>
      destruct (showMicState_same b x) as (S1 & S2 & S3 & S4);
      pose proof (showMicState_frame b x) as [F1 F2 _ _ _ _ _]
  end.
  unfold effectsSince, currentStatus.
  autorewrite with proj. rewrite S1, S2, S3, S4, F1, F2. autorewrite with proj.
  rewrite (clients_update_client _ _ _ cl Hcl), drop_app_length, statusCalls_app.
  cbn. rewrite app_nil_r.
  split_and!; try done.
  - rewrite list_lookup_insert_eq by (by apply lookup_lt_Some in Hcl).
    cbn. by rewrite Ht.
  - intros c' Hne. by rewrite list_lookup_insert_ne.
Qed.

(** C8.  After a successful [connect] (a credential is present and
    both awaited calls resolve) the local capture track of the new
    session, if the device initialisation acquired one, has
    [enabled = false].  With a session handle present
    [toggleMicrophone] negates the [enabled] flag of the session's
    local audio track once, touches no other client, makes no status
    update and leaves the Connection Status and its indicator as they
    were.  Without a session handle it logs the warning "Please
    connect first" and changes nothing else. *)
Theorem microphone_muted_then_toggled :
  (forall (env : Env) (s : State),
     truthy (apiKeyInput (page s)) = true ->
     connectFailure env = None ->
     rtviClient (run (connect env) s) = Some (length (clients s))
     /\ (clients (run (connect env) s) !! length (clients s)) ≫= localAudio
        = set_enabled false <$> mic env
     /\ forall t,
          (clients (run (connect env) s) !! length (clients s)) ≫= localAudio = Some t ->
          enabled t = false)
  /\ (forall (s : State) (c : nat),
        rtviClient s = Some c ->
        (clients (toggleMicrophone s) !! c) ≫= localAudio
        = flipEnabled <$> ((clients s !! c) ≫= localAudio)
        /\ (forall t, enabled (flipEnabled t) = negb (enabled t))
        /\ (forall c', c' <> c -> clients (toggleMicrophone s) !! c' = clients s !! c')
        /\ statusCalls (effectsSince s (toggleMicrophone s)) = []
        /\ currentStatus (toggleMicrophone s) = currentStatus s
        /\ connectionStatus (page (toggleMicrophone s)) = connectionStatus (page s)
        /\ statusDot (page (toggleMicrophone s)) = statusDot (page s)
        /\ rtviClient (toggleMicrophone s) = Some c)
  /\ (forall (s : State),
        rtviClient s = None ->
        toggleMicrophone s = emit (ConsoleLog "[WARNING] Please connect first") s).
Proof.
  split; [|split].
  - intros env s Hkey Hok.
    destruct (connect_with_key env s Hkey) as (s1 & E & Hc & _ & _ & Hcl & _).
    destruct (openSession_ok env _ s1 Hc) as (s' & x & E' & Hmic & _); [|done|].
    { rewrite Hcl, length_app. cbn. lia. }
    assert (run (connect env) s = s') as -> by (unfold run; by rewrite E, E').
    split.
    { destruct (connect_session env s Hkey) as (s'' & d & E'' & Hc'' & _).
      rewrite E, E' in E''. by simplify_eq. }
    split; [done|].
    intros t Ht. rewrite Hmic in Ht. destruct (mic env); by simplify_eq/=.
  - intros s c Hc.
    destruct (toggleMicrophone_with_client s c Hc)
      as (H1 & H2 & H3 & H4 & H5 & H6 & H7 & _).
    by split_and!.
  - apply toggleMicrophone_no_client.
Qed.

(** The track of the Connected state is muted, one toggle enables it
    again; on a fresh page the toggle only warns. *)
Lemma microphone_muted_then_toggled_witness :
  (clients connectedApp !! 0) ≫= localAudio = Some (set_enabled false exampleMic)
  /\ (clients (toggleMicrophone connectedApp) !! 0) ≫= localAudio = Some exampleMic
  /\ currentStatus (toggleMicrophone connectedApp) = connected
  /\ toggleMicrophone (freshApp "abc123")
     = emit (ConsoleLog "[WARNING] Please connect first") (freshApp "abc123").
Proof.
  destruct microphone_muted_then_toggled as (A & B & C).
  destruct (A (envOk 0) (freshApp "abc123")) as (_ & HA & _);
    [vm_compute; reflexivity|reflexivity|].
  destruct (B connectedApp 0) as (HB & _ & _ & _ & HB' & _); [vm_compute; reflexivity|].
  split; [exact HA|]. split; [|split].
  - rewrite HB. by vm_compute.
  - rewrite HB'. by vm_compute.
  - apply C. reflexivity.
Defined.

(** * Further properties of the class *)

(** ** Exceptions stop at the operation boundary *)

Lemma disconnect_without_handle env s :
  rtviClient s = None -> disconnect env s = (Normal tt, s).
Proof. intros Hc. unfold disconnect. step. by rewrite Hc. Qed.

Lemma connect_completes env s : exists s', connect env s = (Normal tt, s').
Proof.
  destruct (truthy (apiKeyInput (page s))) eqn:Hkey.
  - destruct (connect_session env s Hkey) as (s' & d & E & _). by exists s'.
  - destruct (connect_no_key env s Hkey) as (s' & E & _). by exists s'.
Qed.

Lemma disconnect_completes env s : exists s', disconnect env s = (Normal tt, s').
Proof.
  destruct (rtviClient s) as [c|] eqn:Hc.
  - destruct (disconnect_with_handle env s c Hc) as (s' & d & E & _). by exists s'.
  - exists s. by apply disconnect_without_handle.
Qed.

(** X1.  No exception leaves [connect], [disconnect] or the toggle:
    whatever the transport answers (rejections of [initDevices], of
    the session open or of the release) and whatever the state, each
    of them completes normally. *)
Theorem operations_never_throw (env : Env) (s : State) :
  fst (connect env s) = Normal tt
  /\ fst (disconnect env s) = Normal tt
  /\ fst (toggleConnection env s) = Normal tt.
Proof.
  destruct (connect_completes env s) as (s1 & E1).
  destruct (disconnect_completes env s) as (s2 & E2).
  split; [by rewrite E1|]. split; [by rewrite E2|].
  unfold toggleConnection. step.
  destruct (rtviClient s); by rewrite ?E1, ?E2.
Qed.

(** ** Audio contexts *)

Lemma connect_no_key_contexts env s :
  truthy (apiKeyInput (page s)) = false ->
  contexts (run (connect env) s) = contexts s ++ [running]
  /\ audioContext (run (connect env) s) = Some (length (contexts s))
  /\ rtviClient (run (connect env) s) = rtviClient s.
Proof.
  intros Hkey. unfold run, connect, connectTry, resumeAudioContext.
  rewrite tryCatch_run. steps. rewrite Hkey. cbn [negb]. steps. rewrite modify_run.
  cbn [snd]. autorewrite with proj. split; [apply insert_snoc_length|done].
Qed.

(** X2.  Every call of [connect] allocates a new audio context, starts
    it and stores it in the [audioContext] field, and closes no
    context: the contexts allocated before stay as they were, so the
    one the field held before is no longer referenced.  On the
    empty-credential path with no session handle the new context is
    never released either: a following [disconnect] does nothing. *)
Theorem connect_allocates_audio_context (env env' : Env) (s : State) :
  audioContext (run (connect env) s) = Some (length (contexts s))
  /\ contexts (run (connect env) s) = contexts s ++ [running]
  /\ (forall a, CloseAudioContext a ∉ effectsSince s (run (connect env) s))
  /\ (truthy (apiKeyInput (page s)) = false ->
      rtviClient s = None ->
      run (disconnect env') (run (connect env) s) = run (connect env) s).
Proof.
  destruct (truthy (apiKeyInput (page s))) eqn:Hkey.
  - destruct (connect_session env s Hkey)
      as (s' & d & E & _ & Ha & Hctx & _ & _ & Htr & Hq & _).
    assert (run (connect env) s = s') as -> by (unfold run; by rewrite E).
    rewrite (effectsSince_app _ _ _ Htr).
    split; [done|]. split; [done|]. split; [|done].
    intros a Hin. apply elem_of_app in Hin as [Hin|Hin].
    + apply list_elem_of_In in Hin. cbn in Hin.
      repeat (destruct Hin as [Hin|Hin]; [discriminate Hin|]). done.
    + by apply (session_not_close _ _ _ Hq) in Hin.
  - destruct (connect_no_key_contexts env s Hkey) as (Hctx & Ha & Hc).
    destruct (connect_no_key env s Hkey) as (s' & E & Htr & _).
    assert (run (connect env) s = s') as Hrun by (unfold run; by rewrite E).
    rewrite Hrun in *. rewrite (effectsSince_app _ _ _ Htr).
    split; [done|]. split; [done|]. split.
    + intros a Hin. apply list_elem_of_In in Hin. cbn in Hin.
      repeat (destruct Hin as [Hin|Hin]; [discriminate Hin|]). done.
    + intros _ Hnone. unfold run.
      rewrite disconnect_without_handle; [done|]. by rewrite Hc.
Qed.

(** An attempt without a key on a fresh page leaks context 0. *)
Lemma connect_allocates_audio_context_witness :
  run (disconnect envSilent) (run (connect envSilent) (freshApp EmptyString))
  = run (connect envSilent) (freshApp EmptyString).
Proof.
  destruct (connect_allocates_audio_context envSilent envSilent (freshApp EmptyString))
    as (_ & _ & _ & H).
  apply H; reflexivity.
Defined.

(** ** Callbacks *)

(** X3.  The callbacks the transport fires (connected, disconnected,
    bot ready, messages, errors, track events, a rejected [play])
    never write the session-handle field or the [audioContext] field,
    never change a context, the options, listeners or local track of
    a client, or the API key, and never add or remove the audio
    element.  On the trace they only log, record status updates and
    [play] calls: no transport call, no new client.  Their status
    updates are exactly one per [onConnected] / [onDisconnected] of an
    existing client, in the order fired. *)
Theorem callbacks_keep_session (evs : list EnvEvent) (s : State) :
  rtviClient (deliver evs s) = rtviClient s
  /\ audioContext (deliver evs s) = audioContext s
  /\ contexts (deliver evs s) = contexts s
  /\ clientCore <$> clients (deliver evs s) = clientCore <$> clients s
  /\ apiKeyInput (page (deliver evs s)) = apiKeyInput (page s)
  /\ (botAudioEl (page (deliver evs s)) = None <-> botAudioEl (page s) = None)
  /\ Forall quietEffect (effectsSince s (deliver evs s))
  /\ transportCalls (effectsSince s (deliver evs s)) = []
  /\ newClients (effectsSince s (deliver evs s)) = []
  /\ statusCalls (effectsSince s (deliver evs s))
     = statusOfFired (length (clients s)) evs.
Proof.
  destruct (frame_deliver evs s) as [H1 H2 H3 H4 H5 H6 _].
  destruct (deliver_effects evs s) as (d & Hd & Hq & Hst).
  rewrite (effectsSince_app _ _ _ Hd).
  split_and!; try done.
  - by apply quiet_transportCalls.
  - by apply quiet_newClients.
Qed.

(** ** The status updates of a connect attempt *)

Lemma statusCalls_emit e s :
  statusCalls (trace (emit e s)) = statusCalls (trace s) ++ statusCalls [e].
Proof. by rewrite trace_emit, statusCalls_app. Qed.

Lemma statusCalls_updateConnectionStatus st s :
  statusCalls (trace (updateConnectionStatus st s)) = statusCalls (trace s) ++ [st].
Proof. by rewrite trace_updateConnectionStatus, statusCalls_app. Qed.

Lemma statusCalls_updateStatusText text s :
  statusCalls (trace (updateStatusText text s)) = statusCalls (trace s).
Proof. by rewrite trace_updateStatusText. Qed.

Lemma statusCalls_update_client c f s :
  statusCalls (trace (update_client c f s)) = statusCalls (trace s).
Proof. by rewrite trace_update_client. Qed.

Ltac st_simp :=
  repeat first
    [ rewrite statusCalls_emit | rewrite statusCalls_deliver
    | rewrite statusCalls_log | rewrite statusCalls_updateConnectionStatus
    | rewrite statusCalls_updateStatusText | rewrite statusCalls_update_client ];
  autorewrite with proj; cbn [statusCalls app];
  rewrite ?app_nil_r, <- ?app_assoc; cbn [app].

Lemma catch_statuses env c e s :
  rtviClient s = Some c ->
  exists s',
    connectCatch env e s = (Normal tt, s')
    /\ statusCalls (trace s')
       = statusCalls (trace s) ++
         disconnected :: statusOfFired (length (clients s)) (fired (disconnectResult env)).
Proof.
  intros Hc. unfold connectCatch. steps. rewrite Hc.
  rewrite tryCatch_run, await_run. unfold id.
  destruct (rejection (disconnectResult env)) as [e2|];
    [rewrite modify_run|]; (eexists; split; [reflexivity|]); by st_simp.
Qed.

Lemma session_statuses env c s1 :
  rtviClient s1 = Some c ->
  exists s',
    tryCatch (openSession env) (connectCatch env) s1 = (Normal tt, s')
    /\ statusCalls (trace s')
       = statusCalls (trace s1) ++ sessionStatuses env (length (clients s1)).
Proof.
  intros Hc. rewrite tryCatch_run. unfold openSession, sessionStatuses.
  step. rewrite (bind_thisClient _ _ c) by (by autorewrite with proj).
  cbv beta. rewrite bind_await.
  destruct (rejection (initDevicesResult env)) as [e1|].
  { match goal with
    | |- context [connectCatch env e1 ?x] =>
        destruct (catch_statuses env c e1 x) as (s' & E & Hs);
          [by autorewrite with proj|]
    end.
    exists s'. split; [done|]. rewrite Hs. by st_simp. }
  rewrite (bind_thisClient _ _ c) by (by autorewrite with proj).
  cbv beta. step.
  match goal with
  | |- context [mbind localAudio ?x] => destruct (mbind localAudio x) as [t|]
  end;
    repeat step; rewrite (bind_thisClient _ _ c) by (by autorewrite with proj);
    cbv beta; rewrite await_run; unfold id;
    (destruct (rejection (connectResult env)) as [e2|];
     [ match goal with
       | |- context [connectCatch env e2 ?x] =>
           destruct (catch_statuses env c e2 x) as (s' & E & Hs);
             [by autorewrite with proj|]
       end;
       exists s'; split; [done|]; rewrite Hs; by st_simp
     | eexists; split; [reflexivity|]; by st_simp ]).
Qed.
Lemma connect_statuses env s :
  truthy (apiKeyInput (page s)) = true ->
  statusCalls (effectsSince s (run (connect env) s))
  = connecting :: sessionStatuses env (S (length (clients s))).
Proof.
  intros Hkey.
  destruct (connect_with_key env s Hkey) as (s1 & E & Hc & _ & _ & Hcl & Htr1 & _).
  destruct (session_statuses env _ s1 Hc) as (s' & E' & Hs).
  destruct (connect_session env s Hkey) as (s'' & d & E'' & _ & _ & _ & _ & _ & Htr & _).
  assert (s'' = s') as -> by (rewrite E, E' in E''; by simplify_eq).
  assert (run (connect env) s = s') as -> by (unfold run; by rewrite E, E').
  rewrite (effectsSince_app _ _ _ Htr).
  rewrite Htr, Htr1, !statusCalls_app, Hcl, length_app in Hs. cbn in Hs.
  rewrite Nat.add_1_r, <- app_assoc in Hs.
  apply app_inv_head in Hs. rewrite statusCalls_app. exact Hs.
Qed.



(** ** A session from connect to disconnect *)

Lemma insert_snoc_closed (l : list AudioContextState) :
  <[length l := closed]> (l ++ [running]) = l ++ [closed].
Proof. apply insert_snoc_length. Qed.



(** ** What the session callbacks show *)

Lemma micButton_updateConnectionStatus st s :
  micButton (page (updateConnectionStatus st s)) = micButton (page s).
Proof.
  unfold updateConnectionStatus. cbv zeta. rewrite page_emit.
  destruct (statusDot (page s)); [|done]. rewrite page_set_page.
  by destruct (connectionStatus (page s)) eqn:E; cbn; rewrite ?E.
Qed.

Lemma micButton_updateStatusText text s :
  micButton (page (updateStatusText text s)) = micButton (page s).
Proof. unfold updateStatusText. by destruct (statusText (page s)). Qed.

Lemma micButton_setInnerHTML html s :
  micButton (page (setInnerHTML html s)) = micButton (page s).
Proof. unfold setInnerHTML. by destruct (connectBtnChat (page s)). Qed.

Lemma connectBtnChat_setInnerHTML html s :
  connectBtnChat (page (setInnerHTML html s))
  = (fun _ => html) <$> connectBtnChat (page s).
Proof.
  unfold setInnerHTML. by destruct (connectBtnChat (page s)) eqn:E; cbn; rewrite ?E.
Qed.

Lemma connectBtnChat_updateConnectionStatus st s :
  connectBtnChat (page (updateConnectionStatus st s)) = connectBtnChat (page s).
Proof.
  unfold updateConnectionStatus. cbv zeta. rewrite page_emit.
  destruct (statusDot (page s)); [|done]. rewrite page_set_page.
  by destruct (connectionStatus (page s)) eqn:E; cbn; rewrite ?E.
Qed.

Lemma connectBtnChat_updateStatusText text s :
  connectBtnChat (page (updateStatusText text s)) = connectBtnChat (page s).
Proof. unfold updateStatusText. by destruct (statusText (page s)). Qed.

Lemma elem_of_classRemove (x c : string) (l : list string) :
  x ∈ classRemove c l <-> x <> c /\ x ∈ l.
Proof. unfold classRemove. by rewrite list_elem_of_filter. Qed.

Lemma elem_of_classAdd (x c : string) (l : list string) :
  x ∈ classAdd c l <-> x = c \/ x ∈ l.
Proof.
  unfold classAdd. case_bool_decide as H.
  - split; [by right|]. by intros [->|?].
  - rewrite elem_of_app.
    assert (x ∈ [c] <-> x = c) as ->; [|tauto].
    split.
    + intros H'%list_elem_of_In. cbn in H'. by destruct H' as [<-|[]].
    + intros ->. apply list_elem_of_here.
Qed.

Lemma onConnected_page s :
  micButton (page (onConnected s))
  = (fun b => {| micDisabled := false; micClasses := micClasses b |}) <$> micButton (page s)
  /\ connectBtnChat (page (onConnected s))
     = (fun _ => plugLabel "Disconnect") <$> connectBtnChat (page s).
Proof.
  unfold onConnected. cbv zeta.
  match goal with
  | |- context [match micButton (page ?x) with _ => _ end] =>
      assert (micButton (page x) = micButton (page s)) as Hm
        by (by rewrite micButton_setInnerHTML, micButton_updateStatusText,
                 micButton_updateConnectionStatus);
      assert (connectBtnChat (page x) = (fun _ => plugLabel "Disconnect") <$>
                                          connectBtnChat (page s)) as Hb
        by (by rewrite connectBtnChat_setInnerHTML, connectBtnChat_updateStatusText,
                 connectBtnChat_updateConnectionStatus);
      rewrite Hm; destruct (micButton (page s)) as [b|] eqn:Eb
  end; autorewrite with proj; cbn; by rewrite ?Hm, ?Hb.
Qed.

Lemma onDisconnected_page s :
  micButton (page (onDisconnected s))
  = (fun b => {| micDisabled := true;
                 micClasses := classRemove "active" (micClasses b) |})
      <$> micButton (page s)
  /\ connectBtnChat (page (onDisconnected s))
     = (fun _ => plugLabel "Connect") <$> connectBtnChat (page s).
Proof.
  unfold onDisconnected. cbv zeta. rewrite page_log.
  match goal with
  | |- context [match micButton (page ?x) with _ => _ end] =>
      assert (micButton (page x) = micButton (page s)) as Hm
        by (by rewrite micButton_setInnerHTML, micButton_updateStatusText,
                 micButton_updateConnectionStatus);
      assert (connectBtnChat (page x) = (fun _ => plugLabel "Connect") <$>
                                          connectBtnChat (page s)) as Hb
        by (by rewrite connectBtnChat_setInnerHTML, connectBtnChat_updateStatusText,
                 connectBtnChat_updateConnectionStatus);
      rewrite Hm; destruct (micButton (page s)) as [b|] eqn:Eb
  end; autorewrite with proj; cbn; by rewrite ?Hm, ?Hb.
Qed.

Lemma currentStatus_fire_status s c cl cb st :
  clients s !! c = Some cl ->
  statusOfEvent (length (clients s)) (FromClient c cb) = [st] ->
  currentStatus (fire (FromClient c cb) s) = st.
Proof.
  intros Hc Hst. unfold currentStatus.
  by rewrite statusCalls_fire, Hst, last_snoc.
Qed.

Lemma fire_onConnected s c cl :
  clients s !! c = Some cl -> fire (FromClient c OnConnected) s = onConnected s.
Proof. intros Hc. cbn. by rewrite Hc. Qed.

Lemma fire_onDisconnected s c cl :
  clients s !! c = Some cl -> fire (FromClient c OnDisconnected) s = onDisconnected s.
Proof. intros Hc. cbn. by rewrite Hc. Qed.

(** X6.  The controls follow the session callbacks.  [onConnected] of
    an existing client sets the status to Connected, labels the
    connect button "Disconnect" and enables the microphone button,
    keeping its classes.  [onDisconnected] sets the status to
    Disconnected, labels the connect button "Connect", and leaves the
    microphone button disabled and without the class [active],
    whatever it was before. *)
Theorem callbacks_drive_controls (s : State) (c : nat) (cl : RTVIClient) :
  clients s !! c = Some cl ->
  (currentStatus (fire (FromClient c OnConnected) s) = connected
   /\ connectBtnChat (page (fire (FromClient c OnConnected) s))
      = (fun _ => plugLabel "Disconnect") <$> connectBtnChat (page s)
   /\ micButton (page (fire (FromClient c OnConnected) s))
      = (fun b => {| micDisabled := false; micClasses := micClasses b |})
          <$> micButton (page s))
  /\ (currentStatus (fire (FromClient c OnDisconnected) s) = disconnected
      /\ connectBtnChat (page (fire (FromClient c OnDisconnected) s))
         = (fun _ => plugLabel "Connect") <$> connectBtnChat (page s)
      /\ forall b,
           micButton (page (fire (FromClient c OnDisconnected) s)) = Some b ->
           micDisabled b = true /\ "active" ∉ micClasses b).
Proof.
  intros Hc. pose proof (lookup_lt_Some _ _ _ Hc) as Hlt.
  split.
  - split.
    { apply (currentStatus_fire_status s c cl _ _ Hc). cbn.
      by rewrite bool_decide_eq_true_2. }
    rewrite (fire_onConnected s c cl Hc).
    destruct (onConnected_page s) as (Hm & Hb). by rewrite Hm, Hb.
  - split.
    { apply (currentStatus_fire_status s c cl _ _ Hc). cbn.
      by rewrite bool_decide_eq_true_2. }
    rewrite (fire_onDisconnected s c cl Hc).
    destruct (onDisconnected_page s) as (Hm & Hb). rewrite Hm, Hb.
    split; [done|]. intros b Hb'.
    destruct (micButton (page s)) as [b0|]; simplify_eq/=.
    split; [done|]. rewrite elem_of_classRemove. tauto.
Qed.

(** On the Connected state with the microphone on. *)
Lemma callbacks_drive_controls_witness :
  currentStatus (fire (FromClient 0 OnDisconnected) (toggleMicrophone connectedApp))
  = disconnected
  /\ micButton (page (fire (FromClient 0 OnDisconnected) (toggleMicrophone connectedApp)))
     = Some {| micDisabled := true; micClasses := ["mic-button"] |}.
Proof.
  destruct (callbacks_drive_controls (toggleMicrophone connectedApp) 0
              {| options := configOf (freshApp "abc123");
                 listeners := [TrackStartedEv; TrackStoppedEv];
                 localAudio := Some exampleMic;
                 botAudio := None |})
    as (_ & H & _); [reflexivity|].
  split; [exact H|reflexivity].
Defined.

(** X7.  A disconnect reported by the transport does not release
    anything: [onDisconnected] labels the connect button "Connect"
    but the session handle, the audio context reference and the
    contexts are what they were.  While a session handle is held the
    next click on that button therefore runs [disconnect] on the old
    client and constructs no new session. *)
Theorem reported_disconnect_keeps_handle (env : Env) (s : State)
    (c c0 : nat) (cl : RTVIClient) :
  clients s !! c = Some cl ->
  rtviClient s = Some c0 ->
  rtviClient (fire (FromClient c OnDisconnected) s) = Some c0
  /\ audioContext (fire (FromClient c OnDisconnected) s) = audioContext s
  /\ contexts (fire (FromClient c OnDisconnected) s) = contexts s
  /\ connectBtnChat (page (fire (FromClient c OnDisconnected) s))
     = (fun _ => plugLabel "Connect") <$> connectBtnChat (page s)
  /\ toggleConnection env (fire (FromClient c OnDisconnected) s)
     = disconnect env (fire (FromClient c OnDisconnected) s)
  /\ newClients (effectsSince (fire (FromClient c OnDisconnected) s)
                   (run (toggleConnection env) (fire (FromClient c OnDisconnected) s)))
     = []
  /\ head (transportCalls
             (effectsSince (fire (FromClient c OnDisconnected) s)
                (run (toggleConnection env) (fire (FromClient c OnDisconnected) s))))
     = Some (c0, MDisconnect).
Proof.
  intros Hc Hh.
  destruct (frame_fire (FromClient c OnDisconnected) s) as [F1 F2 F3 _ _ _ _].
  rewrite Hh in F1.
  split; [done|]. split; [done|]. split; [done|].
  split.
  { rewrite (fire_onDisconnected s c cl Hc). by destruct (onDisconnected_page s). }
  split; [by apply (toggleConnection_with_handle env _ c0)|].
  rewrite (run_toggleConnection_with_handle env _ c0 F1).
  destruct (disconnect_effects env _ c0 F1) as (d & tl & -> & Hq & _ & _ & Hn & _).
  split; [|done].
  cbn. by rewrite newClients_app, Hn, (quiet_newClients d Hq).
Qed.

(** On the Connected state. *)
Lemma reported_disconnect_keeps_handle_witness :
  rtviClient (fire (FromClient 0 OnDisconnected) connectedApp) = Some 0
  /\ connectBtnChat (page (fire (FromClient 0 OnDisconnected) connectedApp))
     = Some (plugLabel "Connect").
Proof.
  destruct (reported_disconnect_keeps_handle envSilent connectedApp 0 0
              {| options := configOf (freshApp "abc123");
                 listeners := [TrackStartedEv; TrackStoppedEv];
                 localAudio := Some (set_enabled false exampleMic);
                 botAudio := None |})
    as (H1 & _ & _ & H2 & _); [reflexivity|reflexivity|].
  exact (conj H1 H2).
Defined.

(** ** The connection indicator *)

Lemma classAdd_idem c l : classAdd c (classAdd c l) = classAdd c l.
Proof.
  unfold classAdd. destruct (decide (c ∈ l)) as [H|H].
  - by rewrite !(bool_decide_eq_true_2 _ H).
  - rewrite !(bool_decide_eq_false_2 _ H). rewrite bool_decide_eq_true_2; [done|].
    apply elem_of_app. right. apply list_elem_of_here.
Qed.

Lemma classRemove_idem c l : classRemove c (classRemove c l) = classRemove c l.
Proof.
  unfold classRemove. induction l as [|x l IH]; [done|].
  rewrite (filter_cons _ x l). case_decide as Hx; [|done].
  rewrite (filter_cons _ x). rewrite decide_True by done. by f_equal.
Qed.

Lemma page_updateConnectionStatus st s :
  page (updateConnectionStatus st s)
  = match statusDot (page s) with
    | Some cls =>
        match connectionStatus (page s) with
        | Some _ =>
            set_connectionStatus (Some (statusLabel st))
              (set_statusDot (Some (dotClasses st cls)) (page s))
        | None => set_statusDot (Some (dotClasses st cls)) (page s)
        end
    | None => page s
    end.
Proof.
  unfold updateConnectionStatus. cbv zeta. rewrite page_emit.
  destruct (statusDot (page s)); [|done]. rewrite page_set_page.
  unfold dotClasses. by destruct st, (connectionStatus (page s)) eqn:E; cbn; rewrite ?E.
Qed.

Lemma dotClasses_idem st cls : dotClasses st (dotClasses st cls) = dotClasses st cls.
Proof. destruct st; cbn [dotClasses]; by rewrite ?classAdd_idem, ?classRemove_idem. Qed.

Lemma dotClasses_connected st cls : "connected" ∈ dotClasses st cls <-> st = connected.
Proof.
  destruct st; cbn [dotClasses]; rewrite ?elem_of_classAdd, ?elem_of_classRemove;
    split; try done; try tauto; by left.
Qed.

Lemma dotClasses_other st cls x :
  x <> "connected" -> x ∈ dotClasses st cls <-> x ∈ cls.
Proof.
  intros Hx. destruct st; cbn [dotClasses];
    rewrite ?elem_of_classAdd, ?elem_of_classRemove; tauto.
Qed.

(** X8.  [updateConnectionStatus] on the page.  With the status dot
    present, the dot carries the class [connected] afterwards exactly
    when the new status is Connected, its other classes are kept, and
    the status label, if that element exists, reads "Connected",
    "Connecting..." or "Not Connected".  Without the status dot
    nothing on the page changes, not even an existing status label.
    Repeating the same update changes nothing more. *)
Theorem status_indicator (st : ConnStatus) (s : State) :
  (forall cls,
     statusDot (page s) = Some cls ->
     exists cls',
       statusDot (page (updateConnectionStatus st s)) = Some cls'
       /\ ("connected" ∈ cls' <-> st = connected)
       /\ (forall x, x <> "connected" -> x ∈ cls' <-> x ∈ cls)
       /\ connectionStatus (page (updateConnectionStatus st s))
          = (fun _ => statusLabel st) <$> connectionStatus (page s))
  /\ (statusDot (page s) = None -> page (updateConnectionStatus st s) = page s)
  /\ page (updateConnectionStatus st (updateConnectionStatus st s))
     = page (updateConnectionStatus st s).
Proof.
  split; [|split].
  - intros cls Hdot. exists (dotClasses st cls).
    rewrite page_updateConnectionStatus, Hdot.
    split; [by destruct (connectionStatus (page s))|].
    split; [apply dotClasses_connected|].
    split; [intros x Hx; by apply dotClasses_other|].
    by destruct (connectionStatus (page s)) eqn:E; cbn; rewrite ?E.
  - intros Hdot. by rewrite page_updateConnectionStatus, Hdot.
  - rewrite (page_updateConnectionStatus st (updateConnectionStatus st s)).
    rewrite page_updateConnectionStatus.
    destruct (statusDot (page s)) as [cls|] eqn:Ed; [|by rewrite Ed].
    destruct (connectionStatus (page s)) as [txt|] eqn:Ec; cbn;
      rewrite ?Ec; cbn; by rewrite dotClasses_idem.
Qed.

(** On a fresh page, and on a page without the status dot. *)
Lemma status_indicator_witness :
  statusDot (page (updateConnectionStatus connected (freshApp "abc123")))
  = Some ["status-dot"; "connected"]
  /\ page (updateConnectionStatus connected
             (set_page (set_statusDot None (examplePage "abc123")) (freshApp "abc123")))
     = set_statusDot None (examplePage "abc123").
Proof.
  destruct (status_indicator connected
              (set_page (set_statusDot None (examplePage "abc123")) (freshApp "abc123")))
    as (_ & H & _).
  split; [reflexivity|]. apply H. reflexivity.
Defined.

(** ** The microphone button *)

Lemma flipEnabled_involutive t : flipEnabled (flipEnabled t) = t.
Proof. destruct t as [i k e]. unfold flipEnabled, set_enabled. cbn. by rewrite negb_involutive. Qed.

Lemma showMicState_page e s b :
  micButton (page s) = Some b ->
  micButton (page (showMicState e s))
  = Some {| micDisabled := micDisabled b;
            micClasses := if negb e then classAdd "active" (micClasses b)
                          else classRemove "active" (micClasses b) |}
  /\ statusText (page (showMicState e s))
     = (fun _ => if negb e then "Listening..." else "Microphone muted")
         <$> statusText (page s).
Proof.
  intros Hb. unfold showMicState. rewrite Hb.
  destruct (negb e); rewrite micButton_updateStatusText, statusText_updateStatusText,
    !page_set_page; by cbn.
Qed.

(** X9.  With a session, a local audio track and the microphone
    button present, one [toggleMicrophone] leaves the button carrying
    the class [active] exactly when the track is enabled afterwards,
    keeps its [disabled] flag, sets the status line to "Listening..."
    or "Microphone muted" accordingly and logs the matching line.  A
    second toggle gives the track back as it was. *)
Theorem microphone_button_mirrors_track (s : State) (c : nat) (cl : RTVIClient)
    (t : Track) (b : MicButton) :
  rtviClient s = Some c ->
  clients s !! c = Some cl ->
  localAudio cl = Some t ->
  micButton (page s) = Some b ->
  (exists b',
     micButton (page (toggleMicrophone s)) = Some b'
     /\ micDisabled b' = micDisabled b
     /\ ("active" ∈ micClasses b' <-> enabled (flipEnabled t) = true)
     /\ forall x, x <> "active" -> x ∈ micClasses b' <-> x ∈ micClasses b)
  /\ (clients (toggleMicrophone s) !! c) ≫= localAudio = Some (flipEnabled t)
  /\ statusText (page (toggleMicrophone s))
     = (fun _ => if enabled (flipEnabled t) then "Listening..." else "Microphone muted")
         <$> statusText (page s)
  /\ ConsoleLog (if enabled (flipEnabled t) then "[INFO] Microphone unmuted"
                 else "[INFO] Microphone muted")
       ∈ effectsSince s (toggleMicrophone s)
  /\ (clients (toggleMicrophone (toggleMicrophone s)) !! c) ≫= localAudio = Some t.
Proof.
  intros Hc Hcl Ht Hb.
  destruct (toggleMicrophone_with_client s c Hc) as (H1 & _ & _ & _ & _ & _ & Hc' & _).
  destruct (toggleMicrophone_with_client _ c Hc') as (H2 & _).
  rewrite H1 in H2. rewrite Hcl in H1, H2. cbn in H1, H2. rewrite Ht in H1, H2.
  cbn in H1, H2. rewrite flipEnabled_involutive in H2.
  split; [|split; [done|split; [|split; [|done]]]].
  - unfold toggleMicrophone. rewrite Hc, Hcl, Ht. cbv zeta. rewrite page_log.
    match goal with
    | |- context [showMicState ?e ?x] =>
        destruct (showMicState_page e x b) as (Hm & _);
          [by rewrite page_update_client|]
    end.
    rewrite Hm. eexists. split; [reflexivity|]. cbn.
    split; [done|]. destruct (enabled t); cbn.
    + split; [|intros x Hx; rewrite elem_of_classRemove; tauto].
      rewrite elem_of_classRemove. split; [by intros [? _]|done].
    + split; [|intros x Hx; rewrite elem_of_classAdd; tauto].
      rewrite elem_of_classAdd. split; [done|by left].
  - unfold toggleMicrophone. rewrite Hc, Hcl, Ht. cbv zeta. rewrite page_log.
    match goal with
    | |- context [showMicState ?e ?x] =>
        destruct (showMicState_page e x b) as (_ & Hs);
          [by rewrite page_update_client|]
    end.
    rewrite Hs, page_update_client. cbn. by destruct (enabled t).
  - unfold toggleMicrophone. rewrite Hc, Hcl, Ht. cbv zeta.
    unfold effectsSince. rewrite trace_log.
    match goal with
    | |- context [showMicState ?e ?x] =>
        destruct (showMicState_same e x) as (_ & Htr & _)
    end.
    rewrite Htr, trace_update_client, drop_app_length. cbn.
    destruct (enabled t); apply list_elem_of_here.
Qed.

(** On the Connected state, whose track is muted. *)
Lemma microphone_button_mirrors_track_witness :
  micButton (page (toggleMicrophone connectedApp))
  = Some {| micDisabled := false; micClasses := ["mic-button"; "active"] |}
  /\ (clients (toggleMicrophone (toggleMicrophone connectedApp)) !! 0) ≫= localAudio
     = Some (set_enabled false exampleMic).
Proof.
  destruct (microphone_button_mirrors_track connectedApp 0
              {| options := configOf (freshApp "abc123");
                 listeners := [TrackStartedEv; TrackStoppedEv];
                 localAudio := Some (set_enabled false exampleMic);
                 botAudio := None |}
              (set_enabled false exampleMic)
              {| micDisabled := false; micClasses := ["mic-button"] |})
    as (_ & _ & _ & _ & H); [reflexivity|reflexivity|reflexivity|reflexivity|].
  split; [reflexivity|exact H].
Defined.

(** ** Reading the connection URL back *)

Lemma append_String c a b : String c a +:+ b = String c (a +:+ b).
Proof. done. Qed.

Lemma hasChar_app c a b : hasChar c (a +:+ b) = hasChar c a || hasChar c b.
Proof.
  induction a as [|x a IH]; [done|].
  rewrite append_String. unfold hasChar in *. cbn. by rewrite IH, orb_assoc.
Qed.

Lemma hasChar_String c x a : hasChar c (String x a) = Ascii.eqb c x || hasChar c a.
Proof. done. Qed.

Lemma splitOn_nosep sep a : hasChar sep a = false -> splitOn sep a = [a].
Proof.
  induction a as [|x a IH]; [done|].
  rewrite hasChar_String. intros [Hx Ha]%orb_false_elim.
  cbn. rewrite Ascii.eqb_sym, Hx. by rewrite (IH Ha).
Qed.

Lemma splitOn_app_sep sep a b :
  hasChar sep a = false -> splitOn sep (a +:+ String sep b) = a :: splitOn sep b.
Proof.
  induction a as [|x a IH].
  - intros _. change (EmptyString +:+ String sep b) with (String sep b).
    cbn. by rewrite Ascii.eqb_refl.
  - rewrite hasChar_String. intros [Hx Ha]%orb_false_elim.
    rewrite append_String. cbn. rewrite Ascii.eqb_sym, Hx. by rewrite (IH Ha).
Qed.

(** Splitting what was joined gives the pieces back, provided no
    piece contains the separator. *)
Lemma splitOn_joinWith sep pieces :
  pieces <> [] ->
  Forall (fun p => hasChar sep p = false) pieces ->
  splitOn sep (joinWith sep pieces) = pieces.
Proof.
  intros Hne Hall. induction Hall as [|p rest Hp Hrest IH]; [done|].
  destruct rest as [|q rest].
  - by apply splitOn_nosep.
  - change (joinWith sep (p :: q :: rest))
      with (p +:+ String sep (joinWith sep (q :: rest))).
    rewrite (splitOn_app_sep _ _ _ Hp). f_equal. by apply IH.
Qed.

Lemma cut_at_first sep k v :
  hasChar sep k = false ->
  beforeFirst sep (k +:+ String sep v) = k /\ afterFirst sep (k +:+ String sep v) = v.
Proof.
  induction k as [|x k IH].
  - intros _. change (EmptyString +:+ String sep v) with (String sep v).
    cbn. by rewrite Ascii.eqb_refl.
  - rewrite hasChar_String. intros [Hx Hk]%orb_false_elim.
    rewrite append_String. cbn. rewrite Ascii.eqb_sym, Hx.
    destruct (IH Hk) as [-> ->]. done.
Qed.

Lemma connectUrl_joined tab key instr :
  connectUrl tab key instr
  = "/connect?" +:+ joinWith "&" (paramPieces (expectedParams tab key instr)).
Proof.
  unfold connectUrl, expectedParams, variantParams.
  destruct (String.eqb tab "tts-llm-stt"), (String.eqb instr EmptyString);
    cbn [negb app fmap list_fmap paramPieces joinWith fst snd];
    cbv zeta; rewrite !append_assoc; reflexivity.
Qed.
Lemma cut_paramPieces params :
  Forall (fun kv : string * string => hasChar "=" kv.1 = false) params ->
  (fun p => (beforeFirst "=" p, afterFirst "=" p)) <$> paramPieces params = params.
Proof.
  induction 1 as [|[k v] rest Hk _ IH]; [done|].
  unfold paramPieces in *. cbn [fmap list_fmap fst snd] in *.
  destruct (cut_at_first "=" k v Hk) as [-> ->]. by rewrite IH.
Qed.

(** A character that [encodeURIComponent] escapes does not occur in
    its output. *)
Lemma encodeURIComponent_escapes x s :
  uriUnescaped x = false -> x <> "%"%char ->
  hasChar x (encodeURIComponent s) = false.
Proof.
  intros Hx Hp. pose proof (encodeURIComponent_safe s) as Hs.
  unfold hasChar. induction Hs as [|c l Hc _ IH]; [done|].
  cbn. rewrite IH, orb_false_r.
  destruct (Ascii.eqb_spec x c) as [->|]; [|done].
  destruct Hc as [Hc| ->]; [by rewrite Hc in Hx|done].
Qed.

Lemma queryParams_connectUrl tab key instr :
  hasChar "&" tab = false ->
  hasChar "&" key = false ->
  queryParams (connectUrl tab key instr) = expectedParams tab key instr.
Proof.
  intros Htab Hkey.
  unfold queryParams. rewrite connectUrl_joined.
  change (afterFirst "?" ("/connect?" +:+ ?x)) with x.
  rewrite splitOn_joinWith.
  - apply cut_paramPieces. unfold expectedParams, variantParams.
    destruct (String.eqb tab "tts-llm-stt"), (String.eqb instr EmptyString);
      repeat constructor.
  - unfold expectedParams. done.
  - pose proof (encodeURIComponent_escapes "&" instr eq_refl) as Henc.
    unfold expectedParams, variantParams, paramPieces.
    destruct (String.eqb tab "tts-llm-stt"), (String.eqb instr EmptyString);
      cbn [app fmap list_fmap fst snd];
      repeat constructor;
      rewrite ?hasChar_app, ?hasChar_String, ?Htab, ?Hkey, ?Henc; done.
Qed.

(** X10.  The connection URL reads back as the parameters it was
    built from.  When neither the bot type nor the API key contains
    [&], cutting the query of [connectUrl] at every [&] and each piece
    at its first [=] gives, in order: [bot_type], [api_key], the five
    parameters of the variant and, for a non-empty instruction text
    only, [system_instruction] with the encoded text.  The instruction
    text may be any text: its encoding contains none of [&], [=],
    [?], [#] or a space. *)
Theorem connect_url_reads_back (tab key instr : string) :
  hasChar "&" tab = false ->
  hasChar "&" key = false ->
  queryParams (connectUrl tab key instr) = expectedParams tab key instr
  /\ length (queryParams (connectUrl tab key instr))
     = (if String.eqb instr EmptyString then 7 else 8)
  /\ Forall (fun x => hasChar x (encodeURIComponent instr) = false)
       ["&"; "="; "?"; "#"; " "]%char.
Proof.
  intros Htab Hkey.
  pose proof (queryParams_connectUrl tab key instr Htab Hkey) as E.
  split; [done|]. split.
  - rewrite E. unfold expectedParams, variantParams.
    by destruct (String.eqb tab "tts-llm-stt"), (String.eqb instr EmptyString).
  - repeat constructor; by apply encodeURIComponent_escapes.
Qed.

(** The Direct-live variant with an instruction text full of
    separators. *)
Lemma connect_url_reads_back_witness :
  queryParams (connectUrl "gemini-live" "abc123" "a=b&c d?")
  = [("bot_type", "gemini-live"); ("api_key", "abc123");
     ("model", "gemini-live-2.5-flash-preview"); ("voice", "Custom-Female");
     ("language", "hi-IN"); ("tts", "true"); ("tts_pace", "1.0");
     ("system_instruction", "a%3Db%26c%20d%3F")].
Proof.
  destruct (connect_url_reads_back "gemini-live" "abc123" "a=b&c d?") as (H & _);
    [reflexivity|reflexivity|].
  exact H.
Defined.

(** ** Percent-encoding round trip *)

Lemma unhex_hexDigit k : k < 16 -> unhex (hexDigit k) = Some k.
Proof. intros Hk. do 16 (destruct k as [|k]; [reflexivity|]). lia. Qed.

(** X11.  The percent-encoding of the instruction text loses nothing:
    decoding [%XY] triples back to bytes recovers the text from
    [encodeURIComponent], so two different texts never give the same
    [system_instruction] value. *)
Theorem encodeURIComponent_round_trip :
  (forall s, percentDecode (encodeURIComponent s) = Some s)
  /\ (forall a b, encodeURIComponent a = encodeURIComponent b -> a = b).
Proof.
  assert (forall s, percentDecode (encodeURIComponent s) = Some s) as RT.
  { induction s as [|c s IH]; [done|].
    cbn [encodeURIComponent]. destruct (uriUnescaped c) eqn:Hc.
    - cbn [percentDecode]. destruct (Ascii.eqb_spec c "%") as [->|_]; [done|].
      by rewrite IH.
    - cbv zeta. cbn [percentDecode]. rewrite Ascii.eqb_refl.
      pose proof (nat_of_ascii_bound c) as Hb.
      rewrite !unhex_hexDigit, IH.
      + rewrite <- Nat.div_mod_eq. by rewrite ascii_nat_embedding.
      + apply Nat.mod_upper_bound. lia.
      + apply Nat.Div0.div_lt_upper_bound. lia. }
  split; [done|].
  intros a b Hab. apply (f_equal percentDecode) in Hab.
  rewrite !RT in Hab. by simplify_eq.
Qed.

(** ** Fields that are not encoded *)

Lemma countChar_app c a b : countChar c (a +:+ b) = countChar c a + countChar c b.
Proof.
  induction a as [|x a IH]; [done|].
  rewrite append_String. cbn [countChar]. rewrite IH. lia.
Qed.

Lemma countChar_hasChar c s : countChar c s = 0 <-> hasChar c s = false.
Proof.
  induction s as [|x s IH]; [done|].
  rewrite hasChar_String. cbn [countChar].
  destruct (Ascii.eqb c x); cbn [orb]; [split; [lia|done]|].
  by rewrite <- IH.
Qed.

Lemma splitOn_length sep s : length (splitOn sep s) = S (countChar sep s).
Proof.
  induction s as [|x s IH]; [done|].
  cbn [splitOn countChar]. rewrite (Ascii.eqb_sym sep x).
  destruct (Ascii.eqb x sep); cbn [length]; [by rewrite IH|].
  destruct (splitOn sep s); cbn [length] in *; [done|lia].
Qed.

(** X12.  The bot type and the API key go into the connection URL as
    they are, without encoding: every [&] in either of them adds one
    parameter to what the URL reads back as, so that the URL reads
    back as the parameters it was built from exactly when neither
    contains [&]. *)
Theorem connect_url_fields_unencoded (tab key instr : string) :
  length (queryParams (connectUrl tab key instr))
  = length (expectedParams tab key instr) + countChar "&" tab + countChar "&" key
  /\ (queryParams (connectUrl tab key instr) = expectedParams tab key instr
      <-> hasChar "&" tab = false /\ hasChar "&" key = false).
Proof.
  assert (length (queryParams (connectUrl tab key instr))
          = length (expectedParams tab key instr)
            + countChar "&" tab + countChar "&" key) as L.
  { unfold queryParams. rewrite length_fmap, splitOn_length, connectUrl_joined.
    change (afterFirst "?" ("/connect?" +:+ ?x)) with x.
    pose proof (proj2 (countChar_hasChar "&" (encodeURIComponent instr))
                  (encodeURIComponent_escapes "&" instr eq_refl ltac:(done))) as Henc.
    unfold expectedParams, variantParams, paramPieces.
    destruct (String.eqb tab "tts-llm-stt"), (String.eqb instr EmptyString);
      cbn [app fmap list_fmap fst snd joinWith length];
      repeat first [rewrite countChar_app | progress cbn [countChar Ascii.eqb Bool.eqb]];
      rewrite ?Henc; lia. }
  split; [done|]. split.
  - intros E. rewrite E in L. rewrite <- !countChar_hasChar. lia.
  - intros [Htab Hkey]. by apply queryParams_connectUrl.
Qed.

(** A key that carries [&model=x] is read back as a key [abc] and a
    second [model] parameter. *)
Lemma connect_url_fields_unencoded_example :
  queryParams (connectUrl "tts-llm-stt" "abc&model=x" EmptyString)
  = [("bot_type", "tts-llm-stt"); ("api_key", "abc"); ("model", "x");
     ("tts_voice", "en-US-Chirp3-HD-Aoede"); ("tts_pace", "1.0");
     ("llm_model", "gemini-2.5-flash-lite-preview-06-17");
     ("stt_model", "chirp_3"); ("stt_language", "en-IN")].
Proof. reflexivity. Qed.

(** ** The chat widget *)

Lemma elem_of_classToggle (x c : string) (l : list string) :
  x ∈ classToggle c l <-> if decide (x = c) then c ∉ l else x ∈ l.
Proof.
  unfold classToggle. case_bool_decide as H.
  - rewrite elem_of_classRemove. destruct (decide (x = c)) as [->|]; tauto.
  - rewrite elem_of_classAdd. destruct (decide (x = c)) as [->|]; tauto.
Qed.

Lemma classToggle_active (c : string) (l : list string) :
  c ∈ classToggle c l <-> c ∉ l.
Proof. rewrite elem_of_classToggle. by destruct (decide (c = c)). Qed.

Lemma classToggle_other (x c : string) (l : list string) :
  x <> c -> x ∈ classToggle c l <-> x ∈ l.
Proof. intros H. rewrite elem_of_classToggle. by destruct (decide (x = c)). Qed.

Lemma isActive_toggle (e : option (list string)) :
  isActive (classToggle "active" <$> e) = present e && negb (isActive e).
Proof.
  destruct e as [l|]; [|done]. cbn [fmap option_fmap option_map isActive].
  case_bool_decide as H1; case_bool_decide as H2; cbn [negb]; try done;
    rewrite classToggle_active in H1; tauto.
Qed.

Lemma isActive_remove (e : option (list string)) :
  isActive (classRemove "active" <$> e) = false.
Proof.
  destruct e as [l|]; [|done]. cbn [fmap option_fmap option_map isActive].
  apply bool_decide_eq_false_2. rewrite elem_of_classRemove. tauto.
Qed.

Lemma toggleChatbot_elements (u : ChatbotUi) :
  chatbotWidget (toggleChatbot u).1 = classToggle "active" <$> chatbotWidget u
  /\ chatbotToggle (toggleChatbot u).1 = classToggle "active" <$> chatbotToggle u
  /\ (toggleChatbot u).2
     = (if isActive (chatbotWidget (toggleChatbot u).1)
        then "[INFO] Chatbot opened" else "[INFO] Chatbot closed").
Proof.
  destruct u as [w b]. unfold toggleChatbot.
  cbn [fst snd chatbotWidget chatbotToggle]. cbv zeta.
  cbn [chatbotWidget chatbotToggle].
  fold (isActive (classToggle "active" <$> w)).
  split; [done|]. split; [done|]. by destruct (isActive _).
Qed.

(** X13.  One click on the chat toggle flips the class [active] on
    the widget and on the toggle button, each on its own and only
    where the element exists, and leaves every other class as it was.
    The console line says [Chatbot opened] exactly when the widget
    exists and was not active before the click; without a widget it
    says [Chatbot closed] whatever happens to the button.  The
    function does not bring the two elements in step: it keeps them in
    step or out of step as they were. *)
Theorem toggleChatbot_flips (u : ChatbotUi) :
  let u' := (toggleChatbot u).1 in
  isActive (chatbotWidget u') = present (chatbotWidget u) && negb (isActive (chatbotWidget u))
  /\ isActive (chatbotToggle u') = present (chatbotToggle u) && negb (isActive (chatbotToggle u))
  /\ (forall c w, c <> "active" -> chatbotWidget u = Some w ->
        exists w', chatbotWidget u' = Some w' /\ (c ∈ w' <-> c ∈ w))
  /\ (forall c b, c <> "active" -> chatbotToggle u = Some b ->
        exists b', chatbotToggle u' = Some b' /\ (c ∈ b' <-> c ∈ b))
  /\ (chatbotWidget u' = None <-> chatbotWidget u = None)
  /\ (chatbotToggle u' = None <-> chatbotToggle u = None)
  /\ (toggleChatbot u).2
     = (if isActive (chatbotWidget u') then "[INFO] Chatbot opened" else "[INFO] Chatbot closed")
  /\ (chatbotWidget u = None -> (toggleChatbot u).2 = "[INFO] Chatbot closed")
  /\ (chatbotWidget u <> None -> chatbotToggle u <> None ->
      (isActive (chatbotWidget u') = isActive (chatbotToggle u')
       <-> isActive (chatbotWidget u) = isActive (chatbotToggle u))).
Proof.
  destruct (toggleChatbot_elements u) as (Ew & Eb & El).
  cbv zeta. rewrite El, Ew, Eb. clear Ew Eb El.
  destruct u as [w b]. cbn [chatbotWidget chatbotToggle].
  split; [apply isActive_toggle|]. split; [apply isActive_toggle|].
  split.
  { intros c w0 Hc ->. eexists. split; [done|]. by apply classToggle_other. }
  split.
  { intros c b0 Hc ->. eexists. split; [done|]. by apply classToggle_other. }
  split; [by destruct w|]. split; [by destruct b|].
  split; [done|].
  split; [by intros ->|].
  intros Hw Hb. rewrite !isActive_toggle.
  destruct w; [|done]. destruct b; [|done].
  by destruct (isActive (Some l)), (isActive (Some l0)).
Qed.

(** X14.  The close button removes [active] from both elements and
    always reports [Chatbot closed]; pressing it again changes
    nothing.  From then on [n] clicks on the toggle leave the widget
    and the button both active when [n] is odd and both inactive when
    [n] is even, so the console line of the next click tells the truth
    about what is shown. *)
Theorem chatbot_open_after_toggles (u : ChatbotUi) (n : nat) :
  chatbotWidget u <> None ->
  chatbotToggle u <> None ->
  let closed := (closeChatbot u).1 in
  let u' := Nat.iter n (fun x => (toggleChatbot x).1) closed in
  (closeChatbot u).2 = "[INFO] Chatbot closed"
  /\ closeChatbot closed = closeChatbot u
  /\ isActive (chatbotWidget u') = Nat.odd n
  /\ isActive (chatbotToggle u') = Nat.odd n
  /\ (toggleChatbot u').2
     = (if Nat.odd n then "[INFO] Chatbot closed" else "[INFO] Chatbot opened").
Proof.
  intros Hw Hb closed u'.
  split; [done|]. split.
  { unfold closed, closeChatbot. cbn [fst chatbotWidget chatbotToggle].
    destruct u as [[w|] [b|]]; cbn [chatbotWidget chatbotToggle] in *; try done.
    cbn [fmap option_fmap option_map]. by rewrite !classRemove_idem. }
  assert (chatbotWidget u' <> None /\ chatbotToggle u' <> None
          /\ isActive (chatbotWidget u') = Nat.odd n
          /\ isActive (chatbotToggle u') = Nat.odd n) as (Hw' & Hb' & Ew & Eb).
  { subst u'. induction n as [|n IH].
    - change (Nat.iter 0 _ closed) with closed. unfold closed, closeChatbot. cbn [fst chatbotWidget chatbotToggle].
      rewrite !isActive_remove. split; [by destruct (chatbotWidget u)|].
      split; [by destruct (chatbotToggle u)|]. done.
    - destruct IH as (IHw & IHb & Ew & Eb).
      rewrite Nat.odd_succ, <- Nat.negb_odd.
      change (Nat.iter (S n) ?f closed) with (f (Nat.iter n f closed)). cbv beta.
      set (x := Nat.iter n _ closed) in *.
      destruct (toggleChatbot_elements x) as (F1 & F2 & _).
      rewrite F1, F2, !isActive_toggle, Ew, Eb.
      by destruct (chatbotWidget x), (chatbotToggle x). }
  split; [done|]. split; [done|].
  destruct (toggleChatbot_elements u') as (F1 & _ & F3).
  rewrite F3, F1, isActive_toggle, Ew.
  by destruct (chatbotWidget u'), (Nat.odd n).
Qed.

(** A page whose widget was left open and whose button was not. *)
Lemma chatbot_open_after_toggles_witness :
  let u := {| chatbotWidget := Some ["chatbot-widget"; "active"];
              chatbotToggle := Some ["chatbot-toggle"] |} in
  isActive (chatbotWidget
              (Nat.iter 3 (fun x => (toggleChatbot x).1) (closeChatbot u).1)) = true.
Proof.
  intros u.
  destruct (chatbot_open_after_toggles u 3) as (_ & _ & H & _);
    [discriminate|discriminate|].
  exact H.
Defined.

(** ** Invariants of the operations *)

Lemma rtviClient_setupTrackListeners s :
  rtviClient (setupTrackListeners s) = rtviClient s.
Proof.
  unfold setupTrackListeners. destruct (rtviClient s) eqn:E; [|done].
  cbv zeta. by autorewrite with proj.
Qed.

(** A property of the state that the field writes, the status updates
    and the callback handlers keep is kept by [connect], [disconnect]
    and [toggleConnection], whatever the transport answers. *)
Section Invariant.

Variable P : State -> Prop.
Hypothesis P_emit : forall e s, P s -> P (emit e s).
Hypothesis P_rtviClient : forall v s, P s -> P (set_rtviClient v s).
Hypothesis P_audioContext : forall v s, P s -> P (set_audioContext v s).
Hypothesis P_clients : forall v s, P s -> P (set_clients v s).
Hypothesis P_contexts : forall v s, P s -> P (set_contexts v s).
Hypothesis P_status : forall st s, P s -> P (updateConnectionStatus st s).
Hypothesis P_text : forall text s, P s -> P (updateStatusText text s).
Hypothesis P_html : forall html s, P s -> P (setInnerHTML html s).
Hypothesis P_mic : forall b s, P s -> P (set_page (set_micButton b (page s)) s).
Hypothesis P_audio : forall t s, P s -> P (setupAudioTrack t s).

Lemma inv_log msg lvl s : P s -> P (log msg lvl s).
Proof. apply P_emit. Qed.

Lemma inv_update_client c f s : P s -> P (update_client c f s).
Proof.
  intros HP. unfold update_client. destruct (clients s !! c); [|done].
  by apply P_clients.
Qed.

Lemma inv_onConnected s : P s -> P (onConnected s).
Proof.
  intros HP. unfold onConnected. cbv zeta.
  case_match; [apply P_mic|]; by apply P_html, P_text, P_status.
Qed.

Lemma inv_onDisconnected s : P s -> P (onDisconnected s).
Proof.
  intros HP. unfold onDisconnected. cbv zeta. apply inv_log.
  case_match; [apply P_mic|]; by apply P_html, P_text, P_status.
Qed.

Lemma inv_setupMediaTracks s : P s -> P (setupMediaTracks s).
Proof.
  intros HP. unfold setupMediaTracks.
  destruct (rtviClient s) as [c|]; [|done].
  destruct (clients s !! c) as [cl|]; [|done].
  destruct (botAudio cl); [by apply P_audio|done].
Qed.

Lemma inv_times n f s : (forall x, P x -> P (f x)) -> P s -> P (times n f s).
Proof.
  intros Hf. revert s. induction n as [|n IH]; intros s HP; [done|].
  cbn [times]. by apply IH, Hf.
Qed.

Lemma inv_fire ev s : P s -> P (fire ev s).
Proof.
  intros HP. destruct ev as [c cb|e]; cbn [fire]; [|by apply inv_log].
  destruct (clients s !! c) as [cl|]; [|done].
  destruct cb; cbn [handle].
  - by apply inv_onConnected.
  - by apply inv_onDisconnected.
  - unfold onBotReady. by apply inv_setupMediaTracks, inv_log, inv_update_client.
  - unfold onGenericMessage. case_match; [by apply inv_log|done].
  - by apply inv_log.
  - by apply inv_log.
  - apply inv_times; [|done]. intros x Hx. unfold onTrackStarted.
    case_match; [|done]. by apply P_text, P_audio.
  - apply inv_times; [|done]. intros x Hx. unfold onTrackStopped.
    case_match; [|done]. by apply P_text.
Qed.

Lemma inv_deliver evs s : P s -> P (deliver evs s).
Proof.
  revert s. induction evs as [|ev evs IH]; intros s HP; [done|].
  rewrite deliver_cons. by apply IH, inv_fire.
Qed.

Lemma inv_toggleMicrophone s : P s -> P (toggleMicrophone s).
Proof.
  intros HP. unfold toggleMicrophone.
  destruct (rtviClient s) as [c|]; [|by apply inv_log].
  destruct (clients s !! c) as [cl|]; [|done].
  destruct (localAudio cl) as [t|]; [|done].
  cbv zeta. apply inv_log. unfold showMicState.
  case_match; [|by apply inv_update_client].
  case_match; by apply P_text, P_mic, inv_update_client.
Qed.

Lemma inv_setupTrackListeners s : P s -> P (setupTrackListeners s).
Proof.
  intros HP. unfold setupTrackListeners. destruct (rtviClient s); [|done].
  cbv zeta. by repeat first [apply P_emit | apply inv_update_client].
Qed.

Ltac inv_tac :=
  repeat first
    [ assumption
    | apply P_emit | apply inv_log | apply inv_update_client
    | apply P_rtviClient | apply P_audioContext
    | apply P_clients | apply P_contexts
    | apply inv_setupTrackListeners
    | apply P_status | apply P_text | apply inv_deliver ].

Lemma inv_connectCatch env e s :
  P s -> exists s', connectCatch env e s = (Normal tt, s') /\ P s'.
Proof.
  intros HP. unfold connectCatch. steps.
  destruct (rtviClient s) as [c|].
  - rewrite tryCatch_run, await_run. unfold id.
    destruct (rejection (disconnectResult env));
      [rewrite modify_run|]; (eexists; split; [reflexivity|]); inv_tac.
  - eexists. split; [reflexivity|]. inv_tac.
Qed.

Lemma inv_session env c s1 :
  rtviClient s1 = Some c -> P s1 ->
  exists s', tryCatch (openSession env) (connectCatch env) s1 = (Normal tt, s')
             /\ P s'.
Proof.
  intros Hc HP. rewrite tryCatch_run. unfold openSession.
  step. rewrite (bind_thisClient _ _ c) by (by autorewrite with proj).
  cbv beta. rewrite bind_await.
  destruct (rejection (initDevicesResult env)) as [e1|].
  { apply inv_connectCatch. inv_tac. }
  rewrite (bind_thisClient _ _ c) by (by autorewrite with proj).
  cbv beta. step.
  match goal with
  | |- context [mbind localAudio ?x] => destruct (mbind localAudio x) as [t|]
  end.
  - repeat step. rewrite (bind_thisClient _ _ c) by (by autorewrite with proj).
    cbv beta. rewrite await_run. unfold id.
    destruct (rejection (connectResult env)) as [e2|].
    + apply inv_connectCatch. inv_tac.
    + eexists. split; [reflexivity|]. inv_tac.
  - repeat step. rewrite (bind_thisClient _ _ c) by (by autorewrite with proj).
    cbv beta. rewrite await_run. unfold id.
    destruct (rejection (connectResult env)) as [e2|].
    + apply inv_connectCatch. inv_tac.
    + eexists. split; [reflexivity|]. inv_tac.
Qed.

Lemma inv_connect env s :
  P s -> exists s', connect env s = (Normal tt, s') /\ P s'.
Proof.
  intros HP. destruct (truthy (apiKeyInput (page s))) eqn:Hkey.
  - unfold connect, connectTry, resumeAudioContext. rewrite tryCatch_run.
    steps. rewrite Hkey. cbn [negb]. steps.
    match goal with
    | |- context [openSession env ?x] =>
        destruct (inv_session env (length (clients s)) x) as (s' & E & H)
    end.
    + rewrite rtviClient_setupTrackListeners. by autorewrite with proj.
    + inv_tac.
    + rewrite tryCatch_run in E. rewrite E. exists s'. split; [reflexivity|exact H].
  - unfold connect, connectTry, resumeAudioContext. rewrite tryCatch_run.
    steps. rewrite Hkey. cbn [negb]. steps. rewrite modify_run.
    eexists. split; [reflexivity|]. inv_tac.
Qed.

Lemma inv_disconnect env s :
  P s -> exists s', disconnect env s = (Normal tt, s') /\ P s'.
Proof.
  intros HP. destruct (rtviClient s) as [c|] eqn:Hc.
  - unfold disconnect. step. rewrite Hc.
    rewrite tryCatch_run, bind_await. unfold id.
    destruct (rejection (disconnectResult env)) as [e|].
    + rewrite modify_run. eexists. split; [reflexivity|]. inv_tac.
    + steps. destruct (audioContext s) as [a|].
      * unfold closeAudioContext. steps. rewrite modify_run.
        eexists. split; [reflexivity|]. inv_tac.
      * eexists. split; [reflexivity|]. inv_tac.
  - exists s. by rewrite disconnect_without_handle.
Qed.

Lemma inv_perform a s : isSetting a = false -> P s -> P (perform a s).
Proof.
  intros Ha HP. destruct a as [env| |v chk|resp|env|env|evs]; try done; cbn [perform].
  - destruct (rtviClient s) as [c|] eqn:Hc.
    + rewrite (run_toggleConnection_with_handle env s c Hc).
      destruct (inv_disconnect env s HP) as (s' & E & H).
      unfold run. by rewrite E.
    + assert (toggleConnection env s = connect env s) as Et
        by (unfold toggleConnection; step; by rewrite Hc).
      destruct (inv_connect env s HP) as (s' & E & H).
      unfold run. by rewrite Et, E.
  - by apply inv_toggleMicrophone.
  - destruct (inv_connect env s HP) as (s' & E & H). unfold run. by rewrite E.
  - destruct (inv_disconnect env s HP) as (s' & E & H). unfold run. by rewrite E.
  - by apply inv_deliver.
Qed.

Lemma inv_performAll acts s :
  Forall (fun a => isSetting a = false) acts -> P s -> P (performAll acts s).
Proof.
  intros Hacts. revert s. induction Hacts as [|a acts Ha _ IH]; intros s HP; [done|].
  unfold performAll. cbn [foldl]. by apply IH, inv_perform.
Qed.

End Invariant.

Lemma performAll_cons a acts s : performAll (a :: acts) s = performAll acts (perform a s).
Proof. done. Qed.

(** ** The playback source *)

Lemma boundTrack_setInnerHTML html s : boundTrack (setInnerHTML html s) = boundTrack s.
Proof. unfold setInnerHTML. by destruct (connectBtnChat (page s)). Qed.

Lemma boundTrack_setupAudioTrack_kept t s :
  boundTrack s <> None -> boundTrack (setupAudioTrack t s) <> None.
Proof.
  intros Hb. rewrite boundTrack_setupAudioTrack; [done|].
  intros Hel. apply Hb. unfold boundTrack. by rewrite Hel.
Qed.

(** X15.  Once a track is bound to the audio element, no sequence of
    clicks, calls of [connect] and [disconnect], setting changes and
    transport callbacks leaves the element without a source: the
    source is replaced by a later track, never released, not even by
    [disconnect] or by the Disconnected callback. *)
Theorem playback_source_never_released (acts : list Action) (s : State) :
  boundTrack s <> None -> boundTrack (performAll acts s) <> None.
Proof.
  revert s. induction acts as [|a acts IH]; intros s Hb; [done|].
  rewrite performAll_cons. apply IH.
  destruct (isSetting a) eqn:Ha.
  - destruct a as [env| |v chk|[d|e]|env|env|evs]; try discriminate Ha; cbn [perform].
    + unfold selectBotType. by destruct chk.
    + done.
    + done.
  - apply (inv_perform (fun x => boundTrack x <> None)); try done.
    + intros st x. unfold boundTrack. by autorewrite with proj.
    + intros text x. by rewrite boundTrack_updateStatusText.
    + intros html x. by rewrite boundTrack_setInnerHTML.
    + apply boundTrack_setupAudioTrack_kept.
Qed.

(** After the session was closed, a failed reconnect and a track-stopped
    event, the audio element still has its source. *)
Lemma playback_source_never_released_witness :
  boundTrack
    (performAll [ClickConnect (envOk 0); ClickConnect envRefused;
                 Callbacks [FromClient 1 (TrackStopped exampleBot None)]]
       playingApp) <> None.
Proof. apply playback_source_never_released. discriminate. Defined.

(** ** Settings across sessions *)

Lemma sameSettings_configOf s s' : sameSettings s s' -> configOf s' = configOf s.
Proof.
  intros (H1 & H2 & H3 & H4 & H5). unfold configOf, RTVIConfig.
  by rewrite H1, H2, H3, H4, H5.
Qed.

Lemma no_setting_Forall acts :
  existsb isSetting acts = false -> Forall (fun a => isSetting a = false) acts.
Proof.
  induction acts as [|a acts IH]; [done|].
  cbn [existsb]. intros [Ha Hacts]%orb_false_elim. constructor; [done|by apply IH].
Qed.

Lemma sameSettings_performAll acts s :
  existsb isSetting acts = false -> sameSettings s (performAll acts s).
Proof.
  intros Hacts.
  apply (inv_performAll (sameSettings s)); try done;
    try (by apply no_setting_Forall).
  - intros st x (H1 & H2 & H3 & H4 & H5). unfold sameSettings.
    by rewrite apiKeyInput_updateConnectionStatus,
      !proj_updateConnectionStatus.
  - intros text x (H1 & H2 & H3 & H4 & H5). unfold sameSettings.
    rewrite (frame_apiKey _ _ (frame_updateStatusText text x)).
    by rewrite !proj_updateStatusText.
  - intros html x Hx. unfold setInnerHTML. by destruct (connectBtnChat (page x)).
  - intros t x Hx. unfold setupAudioTrack. cbv zeta. rewrite page_log.
    by destruct (botAudioEl (page x)).
Qed.





(** ** The bot-ready callback and the track filter *)

Lemma fire_onBotReady s c cl d bot :
  clients s !! c = Some cl ->
  fire (FromClient c (OnBotReady d bot)) s
  = setupMediaTracks (log ("Bot ready: " +:+ d) info (update_client c (set_botAudio bot) s)).
Proof. intros Hc. cbn [fire handle]. by rewrite Hc. Qed.

Lemma setupAudioTrack_without_element t s :
  botAudioEl (page s) = None ->
  setupAudioTrack t s = log "Setting up audio track" info s.
Proof. intros Hel. unfold setupAudioTrack. cbv zeta. by rewrite page_log, Hel. Qed.

Lemma setupAudioTrack_trace t s :
  botAudioEl (page s) <> None ->
  trace (setupAudioTrack t s)
  = trace s ++ [ConsoleLog "[INFO] Setting up audio track"; Play t].
Proof.
  intros Hel. unfold setupAudioTrack. cbv zeta. rewrite page_log.
  destruct (botAudioEl (page s)); [|done].
  autorewrite with proj. by rewrite <- app_assoc.
Qed.

(** X18.  The bot-ready callback of the client the session-handle
    field holds logs the event and, when the transport has an audio
    track of the bot, binds it to the audio element and starts
    playback; it makes no status update and leaves the status line
    alone.  Without an audio element the track is only logged, and
    when the field holds no client any more (the session was released
    before the callback arrived) nothing but the log line happens. *)
Theorem bot_ready_binds_bot_track (s : State) (c : nat) (cl : RTVIClient)
    (d : string) (bot : option Track) :
  clients s !! c = Some cl ->
  let s' := fire (FromClient c (OnBotReady d bot)) s in
  statusCalls (effectsSince s s') = []
  /\ currentStatus s' = currentStatus s
  /\ statusText (page s') = statusText (page s)
  /\ rtviClient s' = rtviClient s
  /\ (rtviClient s = None ->
      page s' = page s
      /\ effectsSince s s' = [ConsoleLog ("[INFO] Bot ready: " +:+ d)])
  /\ (rtviClient s = Some c -> bot = None ->
      page s' = page s
      /\ effectsSince s s' = [ConsoleLog ("[INFO] Bot ready: " +:+ d)])
  /\ (forall t, rtviClient s = Some c -> bot = Some t ->
      botAudioEl (page s) <> None ->
      boundTrack s' = Some [t]
      /\ effectsSince s s'
         = [ConsoleLog ("[INFO] Bot ready: " +:+ d);
            ConsoleLog "[INFO] Setting up audio track"; Play t])
  /\ (forall t, rtviClient s = Some c -> bot = Some t ->
      botAudioEl (page s) = None ->
      page s' = page s
      /\ effectsSince s s'
         = [ConsoleLog ("[INFO] Bot ready: " +:+ d);
            ConsoleLog "[INFO] Setting up audio track"]).
Proof.
  intros Hc s'. subst s'. rewrite (fire_onBotReady s c cl d bot Hc).
  set (s1 := log ("Bot ready: " +:+ d) info (update_client c (set_botAudio bot) s)).
  assert (trace s1 = trace s ++ [ConsoleLog ("[INFO] Bot ready: " +:+ d)]) as Htr1
    by (subst s1; by rewrite trace_log, trace_update_client).
  assert (page s1 = page s) as Hpg1
    by (subst s1; by rewrite page_log, page_update_client).
  assert (rtviClient s1 = rtviClient s) as Hrc1
    by (subst s1; by autorewrite with proj).
  assert (clients s1 !! c = Some (set_botAudio bot cl)) as Hcl1.
  { subst s1. rewrite (proj_log clients) by done.
    rewrite (clients_update_client _ _ _ cl Hc).
    apply list_lookup_insert_eq. by apply lookup_lt_Some in Hc. }
  assert (exists d', trace (setupMediaTracks s1) = trace s1 ++ d' /\ Forall quietEffect d'
                     /\ statusCalls d' = []) as (d' & Hd' & Hq & Hst).
  { unfold setupMediaTracks.
    destruct (rtviClient s1) as [c'|]; [|exists []; by rewrite app_nil_r].
    destruct (clients s1 !! c') as [cl'|]; [|exists []; by rewrite app_nil_r].
    destruct (botAudio cl') as [t|]; [|exists []; by rewrite app_nil_r].
    destruct (botAudioEl (page s1)) eqn:Hel.
    - eexists. split; [apply setupAudioTrack_trace; by rewrite Hel|].
      split; [by repeat constructor|done].
    - rewrite (setupAudioTrack_without_element _ _ Hel).
      eexists. split; [apply trace_log|]. split; [by repeat constructor|done]. }
  assert (trace (setupMediaTracks s1)
          = trace s ++ (ConsoleLog ("[INFO] Bot ready: " +:+ d) :: d')) as Htr
    by (by rewrite Hd', Htr1, <- app_assoc).
  split; [by rewrite (effectsSince_app _ _ _ Htr)|].
  split; [apply (currentStatus_unchanged _ _ _ Htr); exact Hst|].
  split.
  { rewrite <- Hpg1. unfold setupMediaTracks.
    destruct (rtviClient s1) as [c'|]; [|done].
    destruct (clients s1 !! c') as [cl'|]; [|done].
    destruct (botAudio cl') as [t|]; [|done].
    unfold setupAudioTrack. cbv zeta. rewrite page_log.
    by destruct (botAudioEl (page s1)). }
  split.
  { rewrite <- Hrc1. apply (frame_rtviClient _ _ (frame_setupMediaTracks s1)). }
  split.
  { intros Hnone. unfold setupMediaTracks. rewrite Hrc1, Hnone.
    split; [done|]. by rewrite (effectsSince_app _ _ _ Htr1). }
  split.
  { intros Hsome ->. unfold setupMediaTracks. rewrite Hrc1, Hsome, Hcl1.
    cbn [botAudio set_botAudio].
    split; [done|]. by rewrite (effectsSince_app _ _ _ Htr1). }
  split.
  - intros t Hsome -> Hel. unfold setupMediaTracks. rewrite Hrc1, Hsome, Hcl1.
    cbn [botAudio set_botAudio]. rewrite <- Hpg1 in Hel.
    split; [by apply boundTrack_setupAudioTrack|].
    apply effectsSince_app.
    by rewrite (setupAudioTrack_trace _ _ Hel), Htr1, <- app_assoc.
  - intros t Hsome -> Hel. unfold setupMediaTracks. rewrite Hrc1, Hsome, Hcl1.
    cbn [botAudio set_botAudio]. rewrite <- Hpg1 in Hel.
    rewrite (setupAudioTrack_without_element _ _ Hel).
    split; [by rewrite page_log|].
    apply effectsSince_app. by rewrite trace_log, Htr1, <- app_assoc.
Qed.

(** On the Connected state the bot track reported with bot-ready is
    bound. *)
Lemma bot_ready_binds_bot_track_witness :
  boundTrack (fire (FromClient 0 (OnBotReady "{}" (Some exampleBot))) connectedApp)
  = Some [exampleBot].
Proof.
  destruct (bot_ready_binds_bot_track connectedApp 0
              {| options := configOf (freshApp "abc123");
                 listeners := [TrackStartedEv; TrackStoppedEv];
                 localAudio := Some (set_enabled false exampleMic);
                 botAudio := None |}
              "{}" (Some exampleBot))
    as (_ & _ & _ & _ & _ & _ & H & _); [reflexivity|].
  destruct (H exampleBot) as [Hb _]; [reflexivity|reflexivity|discriminate|].
  exact Hb.
Defined.

Lemma times_id n s : times n (fun x => x) s = s.
Proof. by induction n. Qed.

(** X19.  A track event of a local participant, or of a track that is
    not an audio track, changes nothing at all: the user's own
    microphone and video tracks are never bound to the audio element
    and never touch the status line. *)
Theorem other_tracks_ignored (s : State) (c : nat) (t : Track) (p : option Participant) :
  nonLocalAudio t p = false ->
  fire (FromClient c (TrackStarted t p)) s = s
  /\ fire (FromClient c (TrackStopped t p)) s = s
  /\ ((exists q, p = Some q /\ local q = true) \/ kind t <> "audio").
Proof.
  intros Hnl.
  assert (forall n, times n (onTrackStarted t p) s = s
                    /\ times n (onTrackStopped t p) s = s) as Hn.
  { intros n.
    assert (onTrackStarted t p = (fun x => x)) as ->
      by (unfold onTrackStarted; by rewrite Hnl).
    assert (onTrackStopped t p = (fun x => x)) as ->
      by (unfold onTrackStopped; by rewrite Hnl).
    by rewrite !times_id. }
  split; [|split].
  - cbn [fire handle]. destruct (clients s !! c); [apply Hn|done].
  - cbn [fire handle]. destruct (clients s !! c); [apply Hn|done].
  - unfold nonLocalAudio in Hnl. apply andb_false_iff in Hnl as [Hl|Hk].
    + left. destruct p as [q|]; [|done]. exists q. split; [done|].
      by apply negb_false_iff in Hl.
    + right. by apply String.eqb_neq.
Qed.

(** The user's own microphone track starting on the Connected state. *)
Lemma other_tracks_ignored_witness :
  fire (FromClient 0 (TrackStarted exampleMic (Some {| local := true |}))) connectedApp
  = connectedApp.
Proof.
  destruct (other_tracks_ignored connectedApp 0 exampleMic (Some {| local := true |}))
    as (H & _); [reflexivity|].
  exact H.
Defined.
